(** * Temperature scraper: a shallow embedding of [temperature_scraper.py]

    The development models the class [TemperatureScraper]: the per-city
    fetcher [_fetch_city_temperature], the driver [scrape_weather_data], the
    two exporters [save_to_csv] and [save_to_json] and the aggregations of
    [display_summary].

    Modelling conventions.
    - A Python [str] is a Rocq [string] holding its UTF-8 bytes, so the
      literal ['Min Temp (°C)'] is the 14-byte string written below.  A
      lone surrogate, which Python strings can hold and UTF-8 cannot,
      is kept as three bytes of its own and makes a write fail
      ([encodable]).
    - A Python [int] is a [Z].  A Python [float] is the decimal
      [mant * 10 ^ expo] that [repr] prints for it.  A literal of at most
      15 significant digits within the range of binary64 denotes itself
      in Python as it does here; on longer literals, which Python rounds,
      on infinities, NaN and the negative zero the conversions below
      differ from Python; the statements that turn on the value of a
      conversion take decimal integers that a float holds exactly.
    - Exceptions are values of [exn]; code that can raise lives in the
      monad [M], whose state survives a raise, as the attributes of [self]
      and the file system do in Python.
    - The file system is a set of directories and a map of regular
      files.  Opening a file fails when its directory is missing, and
      writing fails on a string without a UTF-8 encoding; permissions
      and the size of the disk are not modelled.
    - Standard output is the list of the lines printed, and printing
      does not fail: the terminal is taken to be one in UTF-8, and the
      statements on the whole script take records whose strings it can
      show.
    - The network and the wall clock are inputs ([world], [datetime]). *)

From Stdlib Require Import ZArith NArith QArith String Ascii List Lia Bool.
From Stdlib Require Import Permutation Sorted.
From stdpp Require Import gmap strings.
Import ListNotations.

Local Open Scope string_scope.
Local Open Scope Z_scope.
Local Set Warnings "-register-all".
#[local] Arguments String.append !s1 s2 : simpl nomatch.

(** ** Characters and decimal digits *)

Definition chr (n : N) : ascii := ascii_of_N n.
Definition ord (c : ascii) : N := N_of_ascii c.

Definition dquote : ascii := "034"%char.
Definition backslash : ascii := "\"%char.
Definition newline : ascii := "010"%char.

Definition is_digit (c : ascii) : bool :=
  ((48 <=? ord c) && (ord c <=? 57))%N.

Definition digit_of_char (c : ascii) : Z := Z.of_N (ord c) - 48.

Definition char_of_digit (d : Z) : ascii := chr (Z.to_N (48 + d)).

(** Value of a string of decimal digits, most significant first. *)
Fixpoint digits_val_acc (acc : Z) (s : string) : Z :=
  match s with
  | EmptyString => acc
  | String c r => digits_val_acc (10 * acc + digit_of_char c) r
  end.

Definition digits_val (s : string) : Z := digits_val_acc 0 s.

(** Decimal digits of a natural number, without leading zeros.  The fuel is
    the number of binary digits, which bounds the number of decimal ones. *)
Fixpoint digits_fuel (fuel : nat) (n : Z) : string :=
  match fuel with
  | O => String (char_of_digit n) EmptyString
  | S f =>
      if n <? 10 then String (char_of_digit n) EmptyString
      else digits_fuel f (n / 10) ++ String (char_of_digit (n mod 10)) EmptyString
  end.

Definition nat_digits (n : Z) : string := digits_fuel (Z.to_nat (Z.log2 n)) n.

(** [k] digits of [n], zero padded: [fixed_digits 2 7 = "07"]. *)
Fixpoint fixed_digits (k : nat) (n : Z) : string :=
  match k with
  | O => EmptyString
  | S k' => fixed_digits k' (n / 10) ++ String (char_of_digit (n mod 10)) EmptyString
  end.

Fixpoint zeros (k : nat) : string :=
  match k with
  | O => EmptyString
  | S k' => String "0"%char (zeros k')
  end.

(** Longest prefix of decimal digits and what follows it. *)
Fixpoint span_digits (s : string) : string * string :=
  match s with
  | EmptyString => (EmptyString, EmptyString)
  | String c r =>
      if is_digit c then let '(ds, rest) := span_digits r in (String c ds, rest)
      else (EmptyString, s)
  end.

(** [int.__repr__] *)
Definition int_repr (z : Z) : string :=
  if z <? 0 then String "-"%char (nat_digits (- z)) else nat_digits z.

(** ** Python floats, as exact decimals *)

Record pyfloat := mkfloat { mant : Z; expo : Z }.

(** Remove trailing zeros of a non-zero mantissa. *)
Fixpoint strip_zeros (fuel : nat) (n e : Z) : pyfloat :=
  match fuel with
  | O => mkfloat n e
  | S f => if n mod 10 =? 0 then strip_zeros f (n / 10) (e + 1) else mkfloat n e
  end.

Definition normalize (n e : Z) : pyfloat :=
  if n =? 0 then mkfloat 0 0 else strip_zeros (Z.to_nat (Z.log2 (Z.abs n))) n e.

Definition normalized (f : pyfloat) : bool :=
  if mant f =? 0 then expo f =? 0 else negb (mant f mod 10 =? 0).

(** [a <= b] on floats: both mantissas are scaled to the smaller exponent. *)
Definition scaled (m : Z) (f : pyfloat) : Z := mant f * 10 ^ (expo f - m).

Definition float_leb (a b : pyfloat) : bool :=
  let m := Z.min (expo a) (expo b) in scaled m a <=? scaled m b.

Definition float_ltb (a b : pyfloat) : bool := negb (float_leb b a).

Definition float_eqb (a b : pyfloat) : bool := float_leb a b && float_leb b a.

Definition float_of_Z (z : Z) : pyfloat := normalize z 0.

(** [int(x)] for a float [x]: truncation towards zero. *)
Definition float_trunc (f : pyfloat) : Z :=
  if 0 <=? expo f then mant f * 10 ^ expo f else Z.quot (mant f) (10 ^ (- expo f)).

(** The exact rational value, used for the averages of the summary. *)
Definition float_to_Q (f : pyfloat) : Q :=
  if 0 <=? expo f then inject_Z (mant f * 10 ^ expo f)
  else Qmake (mant f) (Z.to_pos (10 ^ (- expo f))).

(** The float written [sign int_digits . frac_digits e exp]. *)
Definition float_literal (neg : bool) (int_digits frac_digits : string) (exp : Z) : pyfloat :=
  let m := digits_val (int_digits ++ frac_digits) in
  normalize (if neg then - m else m) (exp - Z.of_nat (String.length frac_digits)).

(** ** Python values *)

(** The values [json.loads] can build, which are also the values the
    scraper stores.  A [dict] keeps its insertion order, so it is an
    association list; the keys of a JSON object are strings. *)
Inductive pyval :=
| PNone
| PBool (b : bool)
| PInt (z : Z)
| PFloat (f : pyfloat)
| PStr (s : string)
| PList (l : list pyval)
| PDict (d : list (string * pyval)).

Definition pydict := list (string * pyval).

Fixpoint dict_get (d : pydict) (k : string) : option pyval :=
  match d with
  | [] => None
  | (k', v) :: d' => if String.eqb k' k then Some v else dict_get d' k
  end.

(** [d[k] = v]: an existing key keeps its position and takes the new
    value, a new key goes last. *)
Fixpoint dict_set (d : pydict) (k : string) (v : pyval) : pydict :=
  match d with
  | [] => [(k, v)]
  | (k', v') :: d' =>
      if String.eqb k' k then (k', v) :: d' else (k', v') :: dict_set d' k v
  end.

(** [dict(pairs)] *)
Definition dict_of_pairs (pairs : list (string * pyval)) : pydict :=
  fold_left (fun d kv => dict_set d (fst kv) (snd kv)) pairs [].

(** ** Exceptions *)

(** The two subscripts the scraper uses: [x['name']] and [x[0]]. *)
Inductive subscript :=
| Key (k : string)
| Index (i : nat).

(** The exceptions the modelled calls raise.  [ConnectionError] stands for
    what [requests.get] raises (connection refused, DNS failure, timeout),
    [HTTPError] for [raise_for_status], and [InvalidJSON] for
    [requests.exceptions.JSONDecodeError], which [response.json()] raises
    on a body that is not JSON.  [OverflowError] comes from [int()] of a
    float too large for binary64, [UnicodeEncodeError] from writing a
    string that has no UTF-8 encoding, and the last five from the file
    system: [OSError] is the one pandas raises itself, the others are its
    subclasses that [open] and [mkdir] raise.  All of them are instances
    of [Exception]; [KeyboardInterrupt] and [SystemExit], which are not,
    are raised by none of the modelled calls. *)
Inductive exn :=
| ConnectionError
| HTTPError (status : Z)
| InvalidJSON
| KeyError (key : subscript)
| IndexError
| TypeError
| ValueError
| OverflowError
| UnicodeEncodeError
| OSError
| FileNotFoundError
| FileExistsError
| IsADirectoryError
| NotADirectoryError.

(** The classes named in the [except] clauses of the source. *)
Inductive pyclass :=
| cls_Exception
| cls_RequestException
| cls_JSONDecodeError
| cls_KeyError.

(** [requests.exceptions.JSONDecodeError] derives from both
    [requests.exceptions.InvalidJSONError], a [RequestException], and
    [json.JSONDecodeError]. *)
Definition isinstance (e : exn) (c : pyclass) : bool :=
  match c, e with
  | cls_Exception, _ => true
  | cls_RequestException, (ConnectionError | HTTPError _ | InvalidJSON) => true
  | cls_JSONDecodeError, InvalidJSON => true
  | cls_KeyError, KeyError _ => true
  | _, _ => false
  end.

Inductive result (A : Type) :=
| Ok (a : A)
| Raise (e : exn).
Arguments Ok {A} a.
Arguments Raise {A} e.

(** ** Built-ins: subscription, [float()], [int()] *)

(** The characters of a UTF-8 string: each lead byte followed by its
    continuation bytes (10xxxxxx). *)
Definition is_continuation (c : ascii) : bool :=
  ((128 <=? ord c) && (ord c <? 192))%N.

Definition starts_with_continuation (s : string) : bool :=
  match s with
  | EmptyString => false
  | String c _ => is_continuation c
  end.

Fixpoint utf8_chars (s : string) : list string :=
  match s with
  | EmptyString => []
  | String c r =>
      match utf8_chars r with
      | g :: gs =>
          if starts_with_continuation g then String c g :: gs
          else String c EmptyString :: g :: gs
      | [] => [String c EmptyString]
      end
  end.

(** [obj[sub]] *)
Definition getitem (obj : pyval) (sub : subscript) : result pyval :=
  match obj, sub with
  | PDict d, Key k =>
      match dict_get d k with Some v => Ok v | None => Raise (KeyError sub) end
  | PDict d, Index _ => Raise (KeyError sub)
  | PList l, Index i =>
      match nth_error l i with Some v => Ok v | None => Raise IndexError end
  | PStr s, Index i =>
      match nth_error (utf8_chars s) i with Some c => Ok (PStr c) | None => Raise IndexError end
  | _, _ => Raise TypeError
  end.

(** ASCII white space, as [str.strip] removes it. *)
Definition is_space (c : ascii) : bool :=
  (((9 <=? ord c) && (ord c <=? 13)) || ((28 <=? ord c) && (ord c <=? 32)))%N.

Fixpoint lstrip (s : string) : string :=
  match s with
  | EmptyString => EmptyString
  | String c r => if is_space c then lstrip r else s
  end.

Fixpoint rstrip (s : string) : string :=
  match s with
  | EmptyString => EmptyString
  | String c r =>
      match rstrip r with
      | EmptyString => if is_space c then EmptyString else String c EmptyString
      | r' => String c r'
      end
  end.

Definition strip (s : string) : string := rstrip (lstrip s).

(** The digits of a Python numeric literal: digits with single underscores
    between them.  The underscores are dropped. *)
Fixpoint digitpart_tail (s : string) : string * string :=
  match s with
  | EmptyString => (EmptyString, EmptyString)
  | String c r =>
      if is_digit c then let '(ds, rest) := digitpart_tail r in (String c ds, rest)
      else if (c =? "_")%char then
        match r with
        | String d r' =>
            if is_digit d then let '(ds, rest) := digitpart_tail r' in (String d ds, rest)
            else (EmptyString, s)
        | EmptyString => (EmptyString, s)
        end
      else (EmptyString, s)
  end.

Definition digitpart (s : string) : option (string * string) :=
  match s with
  | String c r =>
      if is_digit c then let '(ds, rest) := digitpart_tail r in Some (String c ds, rest)
      else None
  | EmptyString => None
  end.

Definition read_sign (s : string) : bool * string :=
  match s with
  | String c r =>
      if (c =? "-")%char then (true, r)
      else if (c =? "+")%char then (false, r) else (false, s)
  | EmptyString => (false, s)
  end.

(** [int(s)] for a string: optional sign and digits, nothing else.  Of
    the digits and the white space of Unicode, which Python accepts as
    well, only those of ASCII are read. *)
Definition int_of_str (s : string) : option Z :=
  let '(neg, s1) := read_sign (strip s) in
  match digitpart s1 with
  | Some (ds, EmptyString) => Some (if neg then - digits_val ds else digits_val ds)
  | _ => None
  end.

(** The exponent of a decimal literal and the end of the literal. *)
Definition read_exponent (neg : bool) (ip fp : string) (s : string) : option pyfloat :=
  match s with
  | EmptyString => Some (float_literal neg ip fp 0)
  | String c r =>
      if ((c =? "e") || (c =? "E"))%char then
        let '(eneg, r1) := read_sign r in
        match digitpart r1 with
        | Some (ds, EmptyString) =>
            Some (float_literal neg ip fp (if eneg then - digits_val ds else digits_val ds))
        | _ => None
        end
      else None
  end.

(** [float(s)] for a string holding a decimal literal: [12], [12.5], [.5],
    [5.], [1e3], with an optional sign and surrounding white space.  The
    literal keeps all its digits, where Python rounds it to binary64.
    The spellings of infinity and NaN and the digits of Unicode beyond
    ASCII, which [float] accepts as well, have no value in the model and
    are refused like any other text. *)
Definition float_of_str (s : string) : option pyfloat :=
  let '(neg, s1) := read_sign (strip s) in
  match digitpart s1 with
  | Some (ip, String c r) =>
      if (c =? ".")%char then
        match digitpart r with
        | Some (fp, r') => read_exponent neg ip fp r'
        | None => read_exponent neg ip EmptyString r
        end
      else read_exponent neg ip EmptyString (String c r)
  | Some (ip, EmptyString) => read_exponent neg ip EmptyString EmptyString
  | None =>
      match s1 with
      | String c r =>
          if (c =? ".")%char then
            match digitpart r with
            | Some (fp, r') => read_exponent neg EmptyString fp r'
            | None => None
            end
          else None
      | EmptyString => None
      end
  end.

(** [float(x)] *)
Definition py_float (x : pyval) : result pyfloat :=
  match x with
  | PStr s => match float_of_str s with Some f => Ok f | None => Raise ValueError end
  | PInt z => Ok (float_of_Z z)
  | PFloat f => Ok f
  | PBool b => Ok (float_of_Z (if b then 1 else 0))
  | PNone | PList _ | PDict _ => Raise TypeError
  end.

(** A number at or beyond [2^1024 - 2^970] in size is no finite binary64
    float: Python holds it as [inf]. *)
Definition float_overflows (f : pyfloat) : bool :=
  let bound := 2 ^ 1024 - 2 ^ 970 in
  if 0 <=? expo f then bound <=? Z.abs (mant f) * 10 ^ expo f
  else bound * 10 ^ (- expo f) <=? Z.abs (mant f).

(** [int(x)]; of a float that is [inf] it raises [OverflowError]. *)
Definition py_int (x : pyval) : result Z :=
  match x with
  | PStr s => match int_of_str s with Some z => Ok z | None => Raise ValueError end
  | PInt z => Ok z
  | PFloat f => if float_overflows f then Raise OverflowError else Ok (float_trunc f)
  | PBool b => Ok (if b then 1 else 0)
  | PNone | PList _ | PDict _ => Raise TypeError
  end.

(** ** [json.loads] *)

(** Outcome of scanning a prefix of a text. *)
Inductive scanned (A : Type) :=
| Parsed (a : A) (rest : string)
| Invalid
| OutOfFuel.
Arguments Parsed {A} a rest.
Arguments Invalid {A}.
Arguments OutOfFuel {A}.

Definition is_json_ws (c : ascii) : bool :=
  (ord c =? 32)%N || (ord c =? 9)%N || (ord c =? 10)%N || (ord c =? 13)%N.

Fixpoint skip_ws (s : string) : string :=
  match s with
  | EmptyString => EmptyString
  | String c r => if is_json_ws c then skip_ws r else s
  end.

Definition hex_val (c : ascii) : option N :=
  let n := ord c in
  if ((48 <=? n) && (n <=? 57))%N then Some (n - 48)%N
  else if ((97 <=? n) && (n <=? 102))%N then Some (n - 87)%N
  else if ((65 <=? n) && (n <=? 70))%N then Some (n - 55)%N
  else None.

Definition hex4 (a b c d : ascii) : option N :=
  match hex_val a, hex_val b, hex_val c, hex_val d with
  | Some x, Some y, Some z, Some w => Some (((x * 16 + y) * 16 + z) * 16 + w)%N
  | _, _, _, _ => None
  end.

(** UTF-8 bytes of a code point.  A lone surrogate, which [json.loads]
    puts into the string as it is, gets the three bytes its number calls
    for; these bytes are no UTF-8, which is how [encodable] tells such a
    string from the others. *)
Definition utf8_encode (u : N) : string :=
  (if u <? 128 then String (chr u) EmptyString
   else if u <? 2048 then
     String (chr (192 + u / 64)) (String (chr (128 + u mod 64)) EmptyString)
   else if u <? 65536 then
     String (chr (224 + u / 4096))
       (String (chr (128 + (u / 64) mod 64)) (String (chr (128 + u mod 64)) EmptyString))
   else
     String (chr (240 + u / 262144))
       (String (chr (128 + (u / 4096) mod 64))
          (String (chr (128 + (u / 64) mod 64)) (String (chr (128 + u mod 64)) EmptyString))))%N.

(** The character a one-letter escape stands for. *)
Definition unescape (c : ascii) : option ascii :=
  if (c =? dquote)%char then Some dquote
  else if (c =? backslash)%char then Some backslash
  else if (c =? "/")%char then Some "/"%char
  else if (c =? "b")%char then Some (chr 8)
  else if (c =? "f")%char then Some (chr 12)
  else if (c =? "n")%char then Some (chr 10)
  else if (c =? "r")%char then Some (chr 13)
  else if (c =? "t")%char then Some (chr 9)
  else None.

Definition prepend (p : string) (r : option (string * string)) : option (string * string) :=
  match r with
  | Some (s, rest) => Some (p ++ s, rest)
  | None => None
  end.

(** [scanstring] in strict mode, from just after the opening quote: the
    decoded string and the text after the closing quote. *)
Fixpoint scanstring (s : string) : option (string * string) :=
  match s with
  | EmptyString => None
  | String c r =>
      if (c =? dquote)%char then Some (EmptyString, r)
      else if (c =? backslash)%char then
        match r with
        | String e r1 =>
            if (e =? "u")%char then
              match r1 with
              | String h1 (String h2 (String h3 (String h4 r2))) =>
                  match hex4 h1 h2 h3 h4 with
                  | Some u =>
                      if ((55296 <=? u) && (u <=? 56319))%N then
                        match r2 with
                        | String b (String v (String g1 (String g2 (String g3 (String g4 r3))))) =>
                            if ((b =? backslash) && (v =? "u"))%char then
                              match hex4 g1 g2 g3 g4 with
                              | Some u2 =>
                                  if ((56320 <=? u2) && (u2 <=? 57343))%N then
                                    prepend
                                      (utf8_encode (65536 + (u - 55296) * 1024 + (u2 - 56320))%N)
                                      (scanstring r3)
                                  else prepend (utf8_encode u) (scanstring r2)
                              | None => None
                              end
                            else prepend (utf8_encode u) (scanstring r2)
                        | String b (String v _) =>
                            if ((b =? backslash) && (v =? "u"))%char then None
                            else prepend (utf8_encode u) (scanstring r2)
                        | _ => prepend (utf8_encode u) (scanstring r2)
                        end
                      else prepend (utf8_encode u) (scanstring r2)
                  | None => None
                  end
              | _ => None
              end
            else
              match unescape e with
              | Some x => prepend (String x EmptyString) (scanstring r1)
              | None => None
              end
        | EmptyString => None
        end
      else if (ord c <? 32)%N then None
      else prepend (String c EmptyString) (scanstring r)
  end.

(** A number, by the decoder's pattern: an optional minus sign, then [0] or
    a non-zero digit and more digits, then an optional fraction (a point
    and digits) and an optional exponent ([e] or [E], a sign, digits).  It
    is an [int] without fraction and exponent, a [float] otherwise. *)
Definition scan_fraction (s : string) : option string * string :=
  match s with
  | String p (String d r) =>
      if ((p =? ".")%char && is_digit d)%bool then
        let '(ds, rest) := span_digits (String d r) in (Some ds, rest)
      else (None, s)
  | _ => (None, s)
  end.

Definition scan_exponent (s : string) : option Z * string :=
  match s with
  | String e r =>
      if ((e =? "e") || (e =? "E"))%char then
        let '(eneg, r1) := read_sign r in
        match span_digits r1 with
        | (String d ds, rest) =>
            (Some (if eneg then - digits_val (String d ds) else digits_val (String d ds)), rest)
        | (EmptyString, _) => (None, s)
        end
      else (None, s)
  | EmptyString => (None, s)
  end.

(** The number after its sign. *)
Definition scan_unsigned (neg : bool) (s1 : string) : option (pyval * string) :=
  match s1 with
  | String c r =>
      if is_digit c then
        let '(ip, rest) :=
          if (c =? "0")%char then (String c EmptyString, r) else span_digits s1 in
        let '(fp, rest1) := scan_fraction rest in
        let '(ex, rest2) := scan_exponent rest1 in
        match fp, ex with
        | None, None => Some (PInt (if neg then - digits_val ip else digits_val ip), rest2)
        | _, _ =>
            Some (PFloat (float_literal neg ip
                            (match fp with Some ds => ds | None => EmptyString end)
                            (match ex with Some x => x | None => 0 end)), rest2)
        end
      else None
  | EmptyString => None
  end.

Definition scan_number (s : string) : option (pyval * string) :=
  match s with
  | String c r => if (c =? "-")%char then scan_unsigned true r else scan_unsigned false s
  | EmptyString => None
  end.

(** [s] with [p] removed from its front. *)
Fixpoint strip_prefix (p s : string) : option string :=
  match p, s with
  | EmptyString, _ => Some s
  | String a p', String b s' => if (a =? b)%char then strip_prefix p' s' else None
  | String _ _, EmptyString => None
  end.

Definition rescan {A B : Type} (r : scanned A) (k : A -> string -> scanned B) : scanned B :=
  match r with
  | Parsed a rest => k a rest
  | Invalid => Invalid
  | OutOfFuel => OutOfFuel
  end.

(** The scanner: [scan_value] reads one value at the head of the text,
    [scan_elems] the elements of an array from its first element, and
    [scan_members] the members of an object from just after the opening
    quote of its first key.  The literals [NaN], [Infinity] and
    [-Infinity], which stand for floats outside the model, are rejected. *)
Fixpoint scan_value (fuel : nat) (s : string) : scanned pyval :=
  match fuel with
  | O => OutOfFuel
  | S f =>
      match s with
      | EmptyString => Invalid
      | String c r =>
          if (c =? dquote)%char then
            match scanstring r with
            | Some (str, rest) => Parsed (PStr str) rest
            | None => Invalid
            end
          else if (c =? "{")%char then
            match skip_ws r with
            | String c1 r1 =>
                if (c1 =? "}")%char then Parsed (PDict []) r1
                else if (c1 =? dquote)%char then
                  rescan (scan_members f r1) (fun ps rest => Parsed (PDict (dict_of_pairs ps)) rest)
                else Invalid
            | EmptyString => Invalid
            end
          else if (c =? "[")%char then
            match skip_ws r with
            | String c1 r1 =>
                if (c1 =? "]")%char then Parsed (PList []) r1
                else rescan (scan_elems f (String c1 r1)) (fun vs rest => Parsed (PList vs) rest)
            | EmptyString => Invalid
            end
          else if (c =? "n")%char then
            match strip_prefix "ull" r with Some rest => Parsed PNone rest | None => Invalid end
          else if (c =? "t")%char then
            match strip_prefix "rue" r with Some rest => Parsed (PBool true) rest | None => Invalid end
          else if (c =? "f")%char then
            match strip_prefix "alse" r with Some rest => Parsed (PBool false) rest | None => Invalid end
          else
            match scan_number s with
            | Some (v, rest) => Parsed v rest
            | None => Invalid
            end
      end
  end

with scan_elems (fuel : nat) (s : string) : scanned (list pyval) :=
  match fuel with
  | O => OutOfFuel
  | S f =>
      rescan (scan_value f s) (fun v rest =>
        match skip_ws rest with
        | String c r =>
            if (c =? "]")%char then Parsed [v] r
            else if (c =? ",")%char then
              rescan (scan_elems f (skip_ws r)) (fun vs rest' => Parsed (v :: vs) rest')
            else Invalid
        | EmptyString => Invalid
        end)
  end

with scan_members (fuel : nat) (s : string) : scanned (list (string * pyval)) :=
  match fuel with
  | O => OutOfFuel
  | S f =>
      match scanstring s with
      | Some (key, rest) =>
          match skip_ws rest with
          | String c r =>
              if (c =? ":")%char then
                rescan (scan_value f (skip_ws r)) (fun v rest1 =>
                  match skip_ws rest1 with
                  | String c1 r1 =>
                      if (c1 =? "}")%char then Parsed [(key, v)] r1
                      else if (c1 =? ",")%char then
                        match skip_ws r1 with
                        | String c2 r2 =>
                            if (c2 =? dquote)%char then
                              rescan (scan_members f r2)
                                (fun ps rest2 => Parsed ((key, v) :: ps) rest2)
                            else Invalid
                        | EmptyString => Invalid
                        end
                      else Invalid
                  | EmptyString => Invalid
                  end)
              else Invalid
          | EmptyString => Invalid
          end
      | None => Invalid
      end
  end.

(** [json.loads]: one value, white space around it, nothing else.  Every
    call of the scanner but the first follows a consumed character, so
    twice the length of the text is fuel enough ([json_loads_fuel]).
    The scanner follows the JSON grammar: the constants [NaN],
    [Infinity] and [-Infinity], which Python reads as floats beyond it,
    are refused, and a number keeps all its digits. *)
Definition json_loads (s : string) : option pyval :=
  match scan_value (2 * String.length s + 1) (skip_ws s) with
  | Parsed v rest => match skip_ws rest with EmptyString => Some v | _ => None end
  | _ => None
  end.

(** A text written with ['] where JSON has the double quote. *)
Fixpoint js (s : string) : string :=
  match s with
  | EmptyString => EmptyString
  | String c r => String (if (c =? "'")%char then dquote else c) (js r)
  end.

(** ** [json.dump] with [indent=2] and [ensure_ascii=False] *)

Definition hex_digit (n : N) : ascii :=
  if (n <? 10)%N then chr (48 + n) else chr (87 + n).

(** With [ensure_ascii=False] only the quote, the backslash and the control
    characters below 0x20 are escaped; every other byte is written as it
    is. *)
Definition escape_char (c : ascii) : string :=
  if (c =? dquote)%char then String backslash (String dquote EmptyString)
  else if (c =? backslash)%char then String backslash (String backslash EmptyString)
  else if (ord c =? 10)%N then String backslash "n"
  else if (ord c =? 13)%N then String backslash "r"
  else if (ord c =? 9)%N then String backslash "t"
  else if (ord c =? 8)%N then String backslash "b"
  else if (ord c =? 12)%N then String backslash "f"
  else if (ord c <? 32)%N then
    String backslash
      (String "u" (String "0" (String "0"
         (String (hex_digit (ord c / 16)) (String (hex_digit (ord c mod 16)) EmptyString)))))
  else String c EmptyString.

Fixpoint escape (s : string) : string :=
  match s with
  | EmptyString => EmptyString
  | String c r => escape_char c ++ escape r
  end.

Definition encode_str (s : string) : string :=
  String dquote (escape s ++ String dquote EmptyString).

Fixpoint string_take (n : nat) (s : string) : string :=
  match n, s with
  | S n', String c r => String c (string_take n' r)
  | _, _ => EmptyString
  end.

Fixpoint string_drop (n : nat) (s : string) : string :=
  match n, s with
  | S n', String c r => string_drop n' r
  | _, _ => s
  end.

(** The exponent of [float.__repr__]: a sign and at least two digits. *)
Definition exponent_repr (x : Z) : string :=
  String (if x <? 0 then "-"%char else "+"%char)
    (if Z.abs x <? 10 then String "0"%char (nat_digits (Z.abs x)) else nat_digits (Z.abs x)).

(** [float.__repr__] of a normalized float: the digits of the mantissa,
    with the point placed by the exponent; exponent notation when the point
    would sit more than 16 digits to the right or 4 or more to the left. *)
Definition float_repr (f : pyfloat) : string :=
  let ds := nat_digits (Z.abs (mant f)) in
  let len := Z.of_nat (String.length ds) in
  let point := len + expo f in
  (if mant f <? 0 then "-" else "") ++
  (if (point <=? -4) || (16 <? point) then
     match ds with
     | String d EmptyString => String d (String "e"%char (exponent_repr (point - 1)))
     | String d tl => String d (String "."%char (tl ++ String "e"%char (exponent_repr (point - 1))))
     | EmptyString => EmptyString
     end
   else if point <=? 0 then "0." ++ zeros (Z.to_nat (- point)) ++ ds
   else if point <? len then
     string_take (Z.to_nat point) ds ++ String "."%char (string_drop (Z.to_nat point) ds)
   else ds ++ zeros (Z.to_nat (expo f)) ++ ".0").

Fixpoint spaces (k : nat) : string :=
  match k with
  | O => EmptyString
  | S k' => String " "%char (spaces k')
  end.

(** A new line and the indentation of nesting level [lvl]. *)
Definition newline_indent (lvl : nat) : string := String newline (spaces (2 * lvl)).

Fixpoint encode (lvl : nat) (v : pyval) : string :=
  match v with
  | PNone => "null"
  | PBool true => "true"
  | PBool false => "false"
  | PInt z => int_repr z
  | PFloat f => float_repr f
  | PStr s => encode_str s
  | PList [] => "[]"
  | PList l =>
      "[" ++ newline_indent (S lvl)
          ++ String.concat ("," ++ newline_indent (S lvl)) (map (encode (S lvl)) l)
          ++ newline_indent lvl ++ "]"
  | PDict [] => "{}"
  | PDict d =>
      "{" ++ newline_indent (S lvl)
          ++ String.concat ("," ++ newline_indent (S lvl))
               (map (fun kv => match kv with
                               | (k, x) => encode_str k ++ ": " ++ encode (S lvl) x
                               end) d)
          ++ newline_indent lvl ++ "}"
  end.

Definition json_dumps (v : pyval) : string := encode 0 v.

(** ** The record of one city and the data frame *)

(** The dict built at lines 69-77 has a fixed shape, so it is a record
    here; [as_dict] gives the dict back, keys in the order of the literal. *)
Record temperature_record := {
  City : string;
  Min_Temp : pyfloat;
  Max_Temp : pyfloat;
  Current_Condition : pyval;
  Humidity : Z;
  Wind_Speed : pyfloat;
  Fetched_At : string
}.

Definition as_dict (r : temperature_record) : pydict :=
  [ ("City", PStr (City r));
    ("Min Temp (°C)", PFloat (Min_Temp r));
    ("Max Temp (°C)", PFloat (Max_Temp r));
    ("Current Condition", Current_Condition r);
    ("Humidity (%)", PInt (Humidity r));
    ("Wind Speed (km/h)", PFloat (Wind_Speed r));
    ("Fetched At", PStr (Fetched_At r)) ].

(** The Python value of [self.temperature_data]: a list of dicts. *)
Definition as_pyval (data : list temperature_record) : pyval :=
  PList (map (fun r => PDict (as_dict r)) data).

(** A frame: its column names and its rows, each under its index label. *)
Record dataframe := {
  columns : list string;
  rows : list (nat * temperature_record)
}.

(** [pd.DataFrame(data)] for a list of dicts: the columns are the keys in
    the order they are first seen, the index is 0, 1, 2, ... *)
Definition DataFrame (data : list temperature_record) : dataframe :=
  {| columns := match data with [] => [] | r :: _ => map fst (as_dict r) end;
     rows := combine (seq 0 (length data)) data |}.

Section StableSort.
Context {A : Type}.
(** [ahead y x]: [y] has to come strictly before [x]. *)
Variable ahead : A -> A -> bool.

Fixpoint insert_stable (x : A) (l : list A) : list A :=
  match l with
  | [] => [x]
  | y :: l' => if ahead y x then y :: insert_stable x l' else x :: y :: l'
  end.

(** Each element is inserted in front of what follows it in the input, so
    equal elements keep their input order. *)
Definition stable_sort (l : list A) : list A := fold_right insert_stable [] l.
End StableSort.

Definition by_max_desc (a b : nat * temperature_record) : bool :=
  float_ltb (Max_Temp (snd b)) (Max_Temp (snd a)).

Definition by_min_asc (a b : nat * temperature_record) : bool :=
  float_ltb (Min_Temp (snd a)) (Min_Temp (snd b)).

(** [df.sort_values('Max Temp (°C)', ascending=False)]: the rows by
    decreasing maximum.  pandas leaves the order of rows with equal keys to
    the sorting routine; here they keep the order of the frame, and no
    statement below on the CSV file depends on that. *)
Definition sort_values_max_desc (df : dataframe) : dataframe :=
  {| columns := columns df; rows := stable_sort by_max_desc (rows df) |}.

(** [df.nlargest(n, 'Max Temp (°C)')], with the default [keep='first']: the
    first [n] rows by decreasing maximum, rows with equal maxima in the
    order of the frame, as pandas documents it. *)
Definition nlargest_max (n : nat) (df : dataframe) : dataframe :=
  {| columns := columns df; rows := firstn n (stable_sort by_max_desc (rows df)) |}.

(** [df.nsmallest(n, 'Min Temp (°C)')], with the default [keep='first']: the
    first [n] rows by increasing minimum, rows with equal minima in the
    order of the frame. *)
Definition nsmallest_min (n : nat) (df : dataframe) : dataframe :=
  {| columns := columns df; rows := firstn n (stable_sort by_min_asc (rows df)) |}.

(** [series.idxmax()] and [series.max()]: the label and the value of the
    first row that holds the largest value. *)
Fixpoint argmax_from (best : nat * pyfloat) (s : list (nat * pyfloat)) : nat * pyfloat :=
  match s with
  | [] => best
  | x :: s' => argmax_from (if float_ltb (snd best) (snd x) then x else best) s'
  end.

Fixpoint argmin_from (best : nat * pyfloat) (s : list (nat * pyfloat)) : nat * pyfloat :=
  match s with
  | [] => best
  | x :: s' => argmin_from (if float_ltb (snd x) (snd best) then x else best) s'
  end.

Definition series (col : temperature_record -> pyfloat) (df : dataframe) : list (nat * pyfloat) :=
  map (fun row => (fst row, col (snd row))) (rows df).

Definition idxmax (s : list (nat * pyfloat)) : option nat :=
  match s with [] => None | x :: s' => Some (fst (argmax_from x s')) end.

Definition series_max (s : list (nat * pyfloat)) : option pyfloat :=
  match s with [] => None | x :: s' => Some (snd (argmax_from x s')) end.

Definition idxmin (s : list (nat * pyfloat)) : option nat :=
  match s with [] => None | x :: s' => Some (fst (argmin_from x s')) end.

Definition series_min (s : list (nat * pyfloat)) : option pyfloat :=
  match s with [] => None | x :: s' => Some (snd (argmin_from x s')) end.

(** [df.loc[label]]: the row under an index label. *)
Fixpoint loc (rs : list (nat * temperature_record)) (label : nat) : option temperature_record :=
  match rs with
  | [] => None
  | (i, r) :: rs' => if Nat.eqb i label then Some r else loc rs' label
  end.

(** [series.mean()], as an exact rational. *)
Definition series_mean (s : list (nat * pyfloat)) : Q :=
  (fold_right (fun x acc => float_to_Q (snd x) + acc) 0 s / inject_Z (Z.of_nat (length s)))%Q.

(** The cells of a row under the given columns; a missing key leaves the
    cell empty. *)
Definition row_cells (cols : list string) (r : temperature_record) : list (option pyval) :=
  map (dict_get (as_dict r)) cols.

(** ** Files, messages and the state of a run *)

(** A file holds the lines of a CSV table or a text.  [Truncated] is
    the file a write leaves when it raises midway: it holds a part of
    what was to be written, how much depends on the buffers it went
    through. *)
Inductive file :=
| CsvFile (header : list string) (body : list (list (option pyval)))
| TextFile (content : string)
| Truncated.

(** A Python [str] is kept as the UTF-8 bytes of its characters, and a
    lone surrogate, which an escape of a JSON text can bring in, as the
    three bytes [ED], [A0..BF], [80..BF] its number calls for
    ([utf8_encode]).  A string with a surrogate has no UTF-8 encoding:
    writing it to a file opened with [encoding='utf-8'] raises
    [UnicodeEncodeError].  No other character starts with [ED] followed
    by a byte from [A0] on. *)
Definition surrogate_lead (c : ascii) : bool := (ord c =? 237)%N.

Definition surrogate_next (s : string) : bool :=
  match s with
  | String d _ => ((160 <=? ord d) && (ord d <=? 191))%N
  | EmptyString => false
  end.

Fixpoint encodable (s : string) : bool :=
  match s with
  | EmptyString => true
  | String c r => negb (surrogate_lead c && surrogate_next r) && encodable r
  end.

(** A cell of a CSV file is written as it is when it is a string, and by
    its [str()] otherwise, in which a surrogate inside a list or a dict
    appears escaped. *)
Definition cell_encodable (c : option pyval) : bool :=
  match c with
  | Some (PStr s) => encodable s
  | _ => true
  end.

Definition file_encodable (f : file) : bool :=
  match f with
  | CsvFile header body => forallb encodable header && forallb (forallb cell_encodable) body
  | TextFile content => encodable content
  | Truncated => true
  end.

(** [df.to_csv(path, index=False)]: the header and one line of cells per
    row, in the order of the frame. *)
Definition to_csv (df : dataframe) : file :=
  CsvFile (columns df) (map (fun row => row_cells (columns df) (snd row)) (rows df)).

Record datetime := {
  year : Z; month : Z; day : Z; hour : Z; minute : Z; second : Z
}.

(** [strftime('%Y-%m-%d %H:%M:%S')] *)
Definition strftime_display (t : datetime) : string :=
  fixed_digits 4 (year t) ++ "-" ++ fixed_digits 2 (month t) ++ "-" ++ fixed_digits 2 (day t)
    ++ " " ++ fixed_digits 2 (hour t) ++ ":" ++ fixed_digits 2 (minute t)
    ++ ":" ++ fixed_digits 2 (second t).

(** [strftime('%Y%m%d_%H%M%S')] *)
Definition strftime_file (t : datetime) : string :=
  fixed_digits 4 (year t) ++ fixed_digits 2 (month t) ++ fixed_digits 2 (day t)
    ++ "_" ++ fixed_digits 2 (hour t) ++ fixed_digits 2 (minute t) ++ fixed_digits 2 (second t).

(** What [display_summary] prints. *)
Record summary := {
  total_cities : nat;
  average_max : Q;
  average_min : Q;
  hottest_city : option string;
  hottest_temp : option pyfloat;
  coldest_city : option string;
  coldest_temp : option pyfloat;
  top_hot : list (string * pyfloat * pyfloat * pyval);
  top_cold : list (string * pyfloat * pyfloat * pyval);
  all_cities : list (string * pyfloat * pyfloat * pyval * Z)
}.

(** The lines written to standard output, by what they say. *)
Inductive message :=
| MsgStarting
| MsgRule
| MsgFetching (city : string)
| MsgFetched (min_temp max_temp : pyfloat)
| MsgFailedToFetch
| MsgError (e : exn)
| MsgErrorFetching (city : string) (e : exn)
| MsgErrorParsing (city : string) (e : exn)
| MsgNoDataToSave
| MsgCsvSaved (path : string)
| MsgJsonSaved (path : string)
| MsgNoDataAvailable
| MsgSummary (s : summary).

(** What an HTTP request meets: no answer at all, or a status and a body. *)
Inductive reply :=
| NoResponse
| Response (status : Z) (body : string).

(** The outside of one run: the answer to each URL and the clock reading
    at the moment each city's record is built. *)
Record world := {
  http_get : string -> reply;
  now_at : string -> datetime
}.

(** The scraper object together with the file system and standard output
    it acts on. *)
Record state := {
  cities : list string;
  temperature_data : list temperature_record;
  output_dir : string;
  dirs : gset string;
  files : gmap string file;
  stdout : list message
}.

(** What the two exporters return. *)
Inductive retval :=
| RNone
| RPath (path : string)
| RFrame (df : dataframe).

(** ** The monad of the methods: state and exceptions *)

Definition M (A : Type) : Type := state -> result A * state.

Definition ret {A : Type} (a : A) : M A := fun st => (Ok a, st).

Definition bind {A B : Type} (c : M A) (k : A -> M B) : M B :=
  fun st =>
    match c st with
    | (Ok a, st') => k a st'
    | (Raise e, st') => (Raise e, st')
    end.

Definition raise {A : Type} (e : exn) : M A := fun st => (Raise e, st).

Definition lift {A : Type} (r : result A) : M A := fun st => (r, st).

Definition gets {A : Type} (f : state -> A) : M A := fun st => (Ok (f st), st).

Declare Scope py_scope.
Delimit Scope py_scope with py.
Notation "x <- c ;; k" := (bind c (fun x => k))
  (at level 100, c at next level, right associativity) : py_scope.
Notation "c ;; k" := (bind c (fun _ => k))
  (at level 100, right associativity) : py_scope.
Local Open Scope py_scope.

(** An [except] clause: the classes it names and its body. *)
Definition handler (A : Type) : Type := list pyclass * (exn -> M A).

Fixpoint find_handler {A : Type} (e : exn) (hs : list (handler A)) : option (exn -> M A) :=
  match hs with
  | [] => None
  | (classes, h) :: hs' =>
      if existsb (isinstance e) classes then Some h else find_handler e hs'
  end.

(** [try: body except ...]: the first clause that names a class of the
    exception runs; with no such clause the exception goes on. *)
Definition try_except {A : Type} (body : M A) (hs : list (handler A)) : M A :=
  fun st =>
    match body st with
    | (Ok a, st') => (Ok a, st')
    | (Raise e, st') =>
        match find_handler e hs with
        | Some h => h e st'
        | None => (Raise e, st')
        end
    end.

(** [for x in l: body] *)
Fixpoint for_each {A : Type} (l : list A) (body : A -> M unit) : M unit :=
  match l with
  | [] => ret tt
  | x :: l' => body x ;; for_each l' body
  end.

Definition print (m : message) : M unit :=
  fun st =>
    (Ok tt, {| cities := cities st; temperature_data := temperature_data st;
               output_dir := output_dir st; dirs := dirs st; files := files st;
               stdout := stdout st ++ [m] |}).

(** [self.temperature_data.append(r)] *)
Definition append_record (r : temperature_record) : M unit :=
  fun st =>
    (Ok tt, {| cities := cities st; temperature_data := temperature_data st ++ [r];
               output_dir := output_dir st; dirs := dirs st; files := files st;
               stdout := stdout st |}).

(** The file system of a state: the directories [dirs] and the regular
    files [files], each under its path.  Every directory there is takes
    files, and the disk is never full. *)
Definition put_file (path : string) (f : file) (st : state) : state :=
  {| cities := cities st; temperature_data := temperature_data st;
     output_dir := output_dir st; dirs := dirs st;
     files := <[path := f]> (files st);
     stdout := stdout st |}.

Definition is_file (path : string) (fs : gmap string file) : bool :=
  match fs !! path with Some _ => true | None => false end.

(** [check_parent_directory], which pandas calls before it opens the
    file: [OSError] unless the directory of the path is there. *)
Definition check_parent_directory (dir : string) : M unit :=
  fun st => if bool_decide (dir ∈ dirs st) then (Ok tt, st) else (Raise OSError, st).

(** [open(path, 'w', encoding='utf-8')] for a path in directory [dir]:
    the directory has to be there and the path must not name a
    directory; the file is then there and empty. *)
Definition open_w (dir path : string) : M unit :=
  fun st =>
    if bool_decide (dir ∈ dirs st) then
      if bool_decide (path ∈ dirs st) then (Raise IsADirectoryError, st)
      else (Ok tt, put_file path (TextFile EmptyString) st)
    else if is_file dir (files st) then (Raise NotADirectoryError, st)
    else (Raise FileNotFoundError, st).

(** Writing [f] to the open file at [path] and closing it.  When a
    string of [f] has no UTF-8 encoding the write raises, and what was
    written before stays in the file. *)
Definition write_file (path : string) (f : file) : M unit :=
  fun st =>
    if file_encodable f then (Ok tt, put_file path f st)
    else (Raise UnicodeEncodeError, put_file path Truncated st).

(** [time.sleep(secs)]: the passing of time is not part of the state. *)
Definition sleep (secs : Z) : M unit := ret tt.

(** ** The methods of [TemperatureScraper] *)

(** The scraper that [__init__] leaves when it ends normally, for a
    script in directory [here], with the directories and the files there
    were; the output directory is among the directories from then on. *)
Definition init (here : string) (existing_dirs : gset string) (fs : gmap string file) : state :=
  {| cities :=
       [ "New Delhi"; "Kolkata"; "Mumbai"; "Chennai"; "Bangalore";
         "Hyderabad"; "Pune"; "Gurgaon"; "Lucknow"; "Guwahati";
         "Bhubaneswar"; "Ahmedabad"; "Jaipur"; "Dehradun"; "Shimla" ];
     temperature_data := [];
     output_dir := here ++ "/output";
     dirs := {[ here ++ "/output" ]} ∪ existing_dirs;
     files := fs;
     stdout := [] |}.

Definition requests_get (w : world) (url : string) : M (Z * string) :=
  match http_get w url with
  | NoResponse => raise ConnectionError
  | Response status body => ret (status, body)
  end.

Definition raise_for_status (response : Z * string) : M unit :=
  if (400 <=? fst response) && (fst response <? 600) then raise (HTTPError (fst response))
  else ret tt.

Definition response_json (response : Z * string) : M pyval :=
  match json_loads (snd response) with
  | Some data => ret data
  | None => raise InvalidJSON
  end.

(** [f"https://wttr.in/{city}?format=j1"] *)
Definition url_of (city : string) : string := "https://wttr.in/" ++ city ++ "?format=j1".

(** The fetcher: lines 52-77 under the two [except] clauses of lines 79-84.
    The items of the dict literal are evaluated in the order written. *)
Definition _fetch_city_temperature (w : world) (city : string) : M (option temperature_record) :=
  try_except
    (let url := url_of city in
     response <- requests_get w url ;;
     raise_for_status response ;;
     data <- response_json response ;;
     cc <- lift (getitem data (Key "current_condition")) ;;
     current_condition <- lift (getitem cc (Index 0)) ;;
     wt <- lift (getitem data (Key "weather")) ;;
     w0 <- lift (getitem wt (Index 0)) ;;
     min_temp <- lift (getitem w0 (Key "mintempC")) ;;
     wt' <- lift (getitem data (Key "weather")) ;;
     w0' <- lift (getitem wt' (Index 0)) ;;
     max_temp <- lift (getitem w0' (Key "maxtempC")) ;;
     wd <- lift (getitem current_condition (Key "weatherDesc")) ;;
     wd0 <- lift (getitem wd (Index 0)) ;;
     condition <- lift (getitem wd0 (Key "value")) ;;
     humidity <- lift (getitem current_condition (Key "humidity")) ;;
     wind_speed <- lift (getitem current_condition (Key "windspeedKmph")) ;;
     min_f <- lift (py_float min_temp) ;;
     max_f <- lift (py_float max_temp) ;;
     hum_i <- lift (py_int humidity) ;;
     wind_f <- lift (py_float wind_speed) ;;
     ret (Some {| City := city;
                  Min_Temp := min_f;
                  Max_Temp := max_f;
                  Current_Condition := condition;
                  Humidity := hum_i;
                  Wind_Speed := wind_f;
                  Fetched_At := strftime_display (now_at w city) |}))
    [ ([cls_RequestException],
       fun e => print (MsgErrorFetching city e) ;; ret None);
      ([cls_KeyError; cls_JSONDecodeError],
       fun e => print (MsgErrorParsing city e) ;; ret None) ].

(** The body of the loop of [scrape_weather_data], for one city.  The test
    [if temp_data:] is true for the dict the fetcher builds and false for
    [None]. *)
Definition city_body (w : world) (city : string) : M unit :=
  print (MsgFetching city) ;;
  try_except
    (temp_data <- _fetch_city_temperature w city ;;
     match temp_data with
     | Some r =>
         append_record r ;;
         print (MsgFetched (Min_Temp r) (Max_Temp r))
     | None => print MsgFailedToFetch
     end)
    [ ([cls_Exception], fun e => print (MsgError e)) ] ;;
  sleep 1.

(** The driver.  It appends to [self.temperature_data], which only
    [__init__] sets to the empty list, and returns that very list. *)
Definition scrape_weather_data (w : world) : M (list temperature_record) :=
  print MsgStarting ;;
  print MsgRule ;;
  cs <- gets cities ;;
  for_each cs (city_body w) ;;
  print MsgRule ;;
  gets temperature_data.

(** The CSV exporter; [now] is the reading of the clock.  [df.to_csv]
    checks the directory, opens the file and writes the frame.  The
    method ends with [return df]. *)
Definition save_to_csv (now : datetime) : M retval :=
  data <- gets temperature_data ;;
  match data with
  | [] => print MsgNoDataToSave ;; ret RNone
  | _ =>
      let df := DataFrame data in
      let df := sort_values_max_desc df in
      let timestamp := strftime_file now in
      dir <- gets output_dir ;;
      let csv_file := dir ++ "/temperature_data_" ++ timestamp ++ ".csv" in
      check_parent_directory dir ;;
      open_w dir csv_file ;;
      write_file csv_file (to_csv df) ;;
      print (MsgCsvSaved csv_file) ;;
      ret (RFrame df)
  end.

(** The JSON exporter: the file is opened, [json.dump] writes the text,
    and the [with] statement closes the file, also when the write
    raises.  The method ends with [return json_file]. *)
Definition save_to_json (now : datetime) : M retval :=
  data <- gets temperature_data ;;
  match data with
  | [] => print MsgNoDataToSave ;; ret RNone
  | _ =>
      let timestamp := strftime_file now in
      dir <- gets output_dir ;;
      let json_file := dir ++ "/temperature_data_" ++ timestamp ++ ".json" in
      open_w dir json_file ;;
      write_file json_file (TextFile (json_dumps (as_pyval data))) ;;
      print (MsgJsonSaved json_file) ;;
      ret (RPath json_file)
  end.

Definition brief (row : nat * temperature_record) : string * pyfloat * pyfloat * pyval :=
  (City (snd row), Min_Temp (snd row), Max_Temp (snd row), Current_Condition (snd row)).

(** The figures [display_summary] prints, line by line of the source. *)
Definition summarize (data : list temperature_record) : summary :=
  let df := DataFrame data in
  {| total_cities := length (rows df);
     average_max := series_mean (series Max_Temp df);
     average_min := series_mean (series Min_Temp df);
     hottest_city :=
       match idxmax (series Max_Temp df) with
       | Some label => option_map City (loc (rows df) label)
       | None => None
       end;
     hottest_temp := series_max (series Max_Temp df);
     coldest_city :=
       match idxmin (series Min_Temp df) with
       | Some label => option_map City (loc (rows df) label)
       | None => None
       end;
     coldest_temp := series_min (series Min_Temp df);
     top_hot := map brief (rows (nlargest_max 5 df));
     top_cold := map brief (rows (nsmallest_min 5 df));
     all_cities :=
       map (fun row => (brief row, Humidity (snd row))) (rows df) |}.

Definition display_summary : M unit :=
  data <- gets temperature_data ;;
  match data with
  | [] => print MsgNoDataAvailable
  | _ => print (MsgSummary (summarize data))
  end.

(** [Path.mkdir(exist_ok=True)] for [path] in directory [parent]: the
    directories there are afterwards.  A directory already there is left
    as it is; a regular file of that name, and a parent that is missing
    or is a regular file, make it raise. *)
Definition mkdir_exist_ok (parent path : string) (ds : gset string) (fs : gmap string file)
    : result (gset string) :=
  if bool_decide (parent ∈ ds) then
    if bool_decide (path ∈ ds) then Ok ds
    else if is_file path fs then Raise FileExistsError
    else Ok ({[ path ]} ∪ ds)
  else if is_file parent fs then Raise NotADirectoryError
  else Raise FileNotFoundError.

(** [TemperatureScraper()]: the call of [__init__], lines 12-25, whose
    last statement makes the output directory.  When that raises there is
    no scraper. *)
Definition TemperatureScraper (here : string) (ds : gset string) (fs : gmap string file)
    : result state :=
  match mkdir_exist_ok here (here ++ "/output") ds fs with
  | Ok ds' =>
      Ok {| cities := cities (init here ds fs);
            temperature_data := [];
            output_dir := here ++ "/output";
            dirs := ds';
            files := fs;
            stdout := [] |}
  | Raise e => Raise e
  end.

(** ** What one run gathers *)

(** A state with nothing in it, to observe what a method does on its own. *)
Definition blank : state := init "" ∅ ∅.

(** What the fetcher hands back for a city, and what it prints meanwhile. *)
Definition fetch_result (w : world) (city : string) : result (option temperature_record) :=
  fst (_fetch_city_temperature w city blank).

Definition fetch_log (w : world) (city : string) : list message :=
  stdout (snd (_fetch_city_temperature w city blank)).

(** A fetch succeeds when the fetcher returns a record. *)
Definition succeeds (w : world) (city : string) : bool :=
  match fetch_result w city with
  | Ok (Some _) => true
  | _ => false
  end.

Definition gathered (w : world) (city : string) : list temperature_record :=
  match fetch_result w city with
  | Ok (Some r) => [r]
  | _ => []
  end.

(** The records of the cities that succeed, in the order of the cities. *)
Definition collected (w : world) (cs : list string) : list temperature_record :=
  flat_map (gathered w) cs.

(** The lines one city adds to standard output. *)
Definition city_log (w : world) (city : string) : list message :=
  MsgFetching city :: fetch_log w city ++
  [ match fetch_result w city with
    | Ok (Some r) => MsgFetched (Min_Temp r) (Max_Temp r)
    | Ok None => MsgFailedToFetch
    | Raise e => MsgError e
    end ].

(** [st] with records added to the collection and lines to the output. *)
Definition extend (new : list temperature_record) (msgs : list message) (st : state) : state :=
  {| cities := cities st; temperature_data := temperature_data st ++ new;
     output_dir := output_dir st; dirs := dirs st; files := files st;
     stdout := stdout st ++ msgs |}.

Definition csv_path (now : datetime) (st : state) : string :=
  output_dir st ++ "/temperature_data_" ++ strftime_file now ++ ".csv".

Definition json_path (now : datetime) (st : state) : string :=
  output_dir st ++ "/temperature_data_" ++ strftime_file now ++ ".json".

(** A computation that only prints: its result is the same in every state
    and the state changes by the printed lines alone. *)
Definition logs_only {A : Type} (c : M A) : Prop :=
  exists r msgs, forall st, c st = (r, extend [] msgs st).


(** The number of cities whose fetch succeeds. *)
Definition count_successes (w : world) (cs : list string) : nat :=
  length (List.filter (succeeds w) cs).

(** ** Sample inputs *)

Definition sample_time : datetime :=
  {| year := 2026; month := 3; day := 7; hour := 9; minute := 5; second := 0 |}.

(** A body of the shape the weather service sends. *)
Definition sample_body : string :=
  js "{'current_condition': [{'humidity': '60', 'weatherDesc': [{'value': 'Sunny'}], 'windspeedKmph': '12'}], 'weather': [{'maxtempC': '34', 'mintempC': '26'}]}".

(** The same, with an empty [current_condition] array. *)
Definition empty_array_body : string :=
  js "{'current_condition': [], 'weather': [{'maxtempC': '34', 'mintempC': '26'}]}".

(** The same, with a temperature that is no number. *)
Definition non_numeric_body : string :=
  js "{'current_condition': [{'humidity': '60', 'weatherDesc': [{'value': 'Sunny'}], 'windspeedKmph': '12'}], 'weather': [{'maxtempC': 'n/a', 'mintempC': '26'}]}".

(** The same, without the [weather] key. *)
Definition no_weather_body : string :=
  js "{'current_condition': [{'humidity': '60', 'weatherDesc': [{'value': 'Sunny'}], 'windspeedKmph': '12'}]}".

(** A world that answers the listed cities and no other. *)
Definition serving (answers : list (string * reply)) : world :=
  {| http_get := fun url =>
       match find (fun a => String.eqb (url_of (fst a)) url) answers with
       | Some a => snd a
       | None => NoResponse
       end;
     now_at := fun _ => sample_time |}.

Definition fresh : state := init "/app" ∅ ∅.

Definition mumbai : temperature_record :=
  {| City := "Mumbai"; Min_Temp := mkfloat 26 0; Max_Temp := mkfloat 34 0;
     Current_Condition := PStr "Sunny"; Humidity := 60; Wind_Speed := mkfloat 12 0;
     Fetched_At := "2026-03-07 09:05:00" |}.

Definition shimla : temperature_record :=
  {| City := "Shimla"; Min_Temp := mkfloat 8 0; Max_Temp := mkfloat 18 0;
     Current_Condition := PStr "Clear"; Humidity := 40; Wind_Speed := mkfloat 5 0;
     Fetched_At := "2026-03-07 09:05:00" |}.

Definition shimla_body : string :=
  js "{'current_condition': [{'humidity': '40', 'weatherDesc': [{'value': 'Clear'}], 'windspeedKmph': '5'}], 'weather': [{'maxtempC': '18', 'mintempC': '8'}]}".

(** Only Mumbai answers. *)
Definition mumbai_only : world := serving [("Mumbai", Response 200 sample_body)].

(** Only Shimla answers. *)
Definition shimla_only : world := serving [("Shimla", Response 200 shimla_body)].

(** Nobody answers. *)
Definition silent : world := serving [].

(** [st] when the output directory has been removed from outside. *)
Definition without_directory (st : state) : state :=
  {| cities := cities st; temperature_data := temperature_data st;
     output_dir := output_dir st; dirs := dirs st ∖ {[ output_dir st ]};
     files := files st; stdout := stdout st |}.


(** The scraper after a first run in which only Mumbai answered. *)
Definition after_first_run : state := snd (scrape_weather_data mumbai_only fresh).

(** [st] after [f] was written at [path] and [msg] printed. *)
Definition written (path : string) (f : file) (msg : message) (st : state) : state :=
  {| cities := cities st; temperature_data := temperature_data st;
     output_dir := output_dir st; dirs := dirs st;
     files := <[path := f]> (files st);
     stdout := stdout st ++ [msg] |}.

(** The frame [save_to_csv] writes. *)
Definition sorted_frame (st : state) : dataframe :=
  sort_values_max_desc (DataFrame (temperature_data st)).

(** ** Order on floats and on rows *)

Definition float_le (a b : pyfloat) : Prop := float_leb a b = true.
Definition float_lt (a b : pyfloat) : Prop := float_ltb a b = true.
Definition float_eq (a b : pyfloat) : Prop := float_eqb a b = true.

(** [hotter a b]: row [a] ranks before row [b] among the hottest, by a
    larger maximum or, at equal maxima, by the smaller index label. *)
Definition hotter (a b : nat * temperature_record) : Prop :=
  float_lt (Max_Temp (snd b)) (Max_Temp (snd a)) \/
  (float_eq (Max_Temp (snd a)) (Max_Temp (snd b)) /\ (fst a < fst b)%nat).

(** [colder a b]: row [a] ranks before row [b] among the coldest. *)
Definition colder (a b : nat * temperature_record) : Prop :=
  float_lt (Min_Temp (snd a)) (Min_Temp (snd b)) \/
  (float_eq (Min_Temp (snd a)) (Min_Temp (snd b)) /\ (fst a < fst b)%nat).

(** The cells of the CSV line of a record. *)
Definition csv_line (r : temperature_record) : list (option pyval) :=
  [ Some (PStr (City r)); Some (PFloat (Min_Temp r)); Some (PFloat (Max_Temp r));
    Some (Current_Condition r); Some (PInt (Humidity r));
    Some (PFloat (Wind_Speed r)); Some (PStr (Fetched_At r)) ].

(** ** Well-formed values and the size of a value *)

Fixpoint all_digits (s : string) : bool :=
  match s with
  | EmptyString => true
  | String c r => is_digit c && all_digits r
  end.

(** A text before which a number ends: it does not go on with a digit, a
    point or an exponent. *)
Definition ends_number (rest : string) : bool :=
  match rest with
  | EmptyString => true
  | String c _ => negb (is_digit c || (c =? ".")%char || (c =? "e")%char || (c =? "E")%char)
  end.

Fixpoint distinct (keys : list string) : bool :=
  match keys with
  | [] => true
  | k :: ks => negb (existsb (String.eqb k) ks) && distinct ks
  end.

(** The values Python can hold: the keys of a dict are distinct, and a
    float is kept in normal form. *)
Fixpoint wf_pyval (v : pyval) : bool :=
  match v with
  | PFloat f => normalized f
  | PList l => forallb wf_pyval l
  | PDict d =>
      distinct (map fst d) && forallb (fun kv => match kv with (_, x) => wf_pyval x end) d
  | _ => true
  end.

Definition wf_record (r : temperature_record) : bool :=
  normalized (Min_Temp r) && normalized (Max_Temp r) && wf_pyval (Current_Condition r)
  && normalized (Wind_Speed r).

Definition wf_state (st : state) : bool := forallb wf_record (temperature_data st).





(** The text of the elements of an array, and of the members of an
    object, at nesting level [lvl]. *)
Definition encode_elems (lvl : nat) (l : list pyval) : string :=
  String.concat ("," ++ newline_indent lvl) (map (encode lvl) l).

Definition encode_member (lvl : nat) (kv : string * pyval) : string :=
  match kv with (k, x) => encode_str k ++ ": " ++ encode lvl x end.

Definition encode_members (lvl : nat) (d : pydict) : string :=
  String.concat ("," ++ newline_indent lvl) (map (encode_member lvl) d).

(** The bytes of a text that are not ASCII. *)
Fixpoint non_ascii (s : string) : string :=
  match s with
  | EmptyString => EmptyString
  | String c r => if (128 <=? ord c)%N then String c (non_ascii r) else non_ascii r
  end.


(** The states a scraper goes through: a new object, then any sequence of
    calls of its methods. *)
Inductive reachable : state -> Prop :=
| reach_init here ds fs : reachable (init here ds fs)
| reach_scrape w st : reachable st -> reachable (snd (scrape_weather_data w st))
| reach_csv now st : reachable st -> reachable (snd (save_to_csv now st))
| reach_json now st : reachable st -> reachable (snd (save_to_json now st))
| reach_summary st : reachable st -> reachable (snd (display_summary st)).




(** [ends_well r n]: the scan did not run out of fuel, and what it left
    is shorter than a text of length [n]. *)
Definition ends_well {A : Type} (r : scanned A) (n : nat) : Prop :=
  match r with
  | Parsed _ rest => (String.length rest < n)%nat
  | Invalid => True
  | OutOfFuel => False
  end.


(** ** The script *)

(** What a run of the script leaves outside: the directories, the files
    and standard output. *)
Definition outside : Type := gset string * gmap string file * list message.

(** [main], lines 158-170, for a script in directory [here], with the
    directories [ds] and the files [fs] there are: a new scraper, one
    run, the summary and the two exports.  [csv_time] and [json_time] are
    the readings of the clock in the two exporters.  An exception of any
    of the calls ends the script; the function ends without a [return]. *)
Definition main (w : world) (csv_time json_time : datetime)
    (here : string) (ds : gset string) (fs : gmap string file) : result unit * outside :=
  match TemperatureScraper here ds fs with
  | Ok scraper =>
      let '(r, st) :=
        (scrape_weather_data w ;;
         display_summary ;;
         save_to_csv csv_time ;;
         save_to_json json_time ;;
         ret tt) scraper in
      (r, (dirs st, files st, stdout st))
  | Raise e => (Raise e, (ds, fs, []))
  end.

(** A computation that leaves the state as it is, with the same result in
    every state. *)
Definition quiet {A : Type} (c : M A) : Prop :=
  exists r, forall st, c st = (r, st).

(** The readings [datetime.now()] gives: a date of the calendar with a
    year of four digits and a time of day. *)
Definition calendar (t : datetime) : bool :=
  (1000 <=? year t) && (year t <=? 9999) && (1 <=? month t) && (month t <=? 12)
  && (1 <=? day t) && (day t <=? 31) && (0 <=? hour t) && (hour t <=? 23)
  && (0 <=? minute t) && (minute t <=? 59) && (0 <=? second t) && (second t <=? 59).

(** A string without white space. *)
Fixpoint no_space (s : string) : bool :=
  match s with
  | EmptyString => true
  | String c r => negb (is_space c) && no_space r
  end.

(** The status codes [raise_for_status] lets through. *)
Definition status_ok (status : Z) : bool := negb ((400 <=? status) && (status <? 600)).

(** The integers that a float holds exactly, and that [int()] and
    [float()] read from a string of any length they come in. *)
Definition exact_range (z : Z) : bool := Z.abs z <=? 2 ^ 53.

(** ** What an export needs *)

(** The file at [path] can be opened for writing: the output directory
    is there and [path] does not name a directory. *)
Definition can_write (path : string) (st : state) : bool :=
  bool_decide (output_dir st ∈ dirs st) && negb (bool_decide (path ∈ dirs st)).

(** The strings of a value, keys included, have a UTF-8 encoding. *)
Fixpoint encodable_pyval (v : pyval) : bool :=
  match v with
  | PStr s => encodable s
  | PList l => forallb encodable_pyval l
  | PDict d => forallb (fun kv => match kv with (k, x) => encodable k && encodable_pyval x end) d
  | _ => true
  end.

Definition encodable_record (r : temperature_record) : bool :=
  encodable (City r) && encodable_pyval (Current_Condition r) && encodable (Fetched_At r).

Definition encodable_data (data : list temperature_record) : bool :=
  forallb encodable_record data.

(** What a write leaves in the file. *)
Definition left_by_write (f : file) : file :=
  if file_encodable f then f else Truncated.

(** A body whose weather description is a lone surrogate, sent as the
    escape the JSON grammar has for it. *)
Definition surrogate_body : string :=
  js "{'current_condition': [{'humidity': '60', 'weatherDesc': [{'value': '\ud800'}], 'windspeedKmph': '12'}], 'weather': [{'maxtempC': '34', 'mintempC': '26'}]}".

(** The scraper after a first run in which only Pune answered, with that
    body. *)
Definition after_surrogate_run : state :=
  snd (scrape_weather_data (serving [("Pune", Response 200 surrogate_body)]) fresh).
(** * Proofs *)

(** ** The monad *)

Lemma extend_nil st : extend [] [] st = st.
Proof. destruct st; unfold extend; simpl. now rewrite !app_nil_r. Qed.

Lemma extend_extend a1 m1 a2 m2 st :
  extend a2 m2 (extend a1 m1 st) = extend (a1 ++ a2) (m1 ++ m2) st.
Proof. unfold extend; simpl. now rewrite !app_assoc. Qed.

Lemma logs_only_ret {A} (a : A) : logs_only (ret a).
Proof. exists (Ok a), []. intros st. now rewrite extend_nil. Qed.

Lemma logs_only_raise {A} e : logs_only (@raise A e).
Proof. exists (Raise e), []. intros st. now rewrite extend_nil. Qed.

Lemma logs_only_lift {A} (r : result A) : logs_only (lift r).
Proof. exists r, []. intros st. now rewrite extend_nil. Qed.

Lemma logs_only_print m : logs_only (print m).
Proof. exists (Ok tt), [m]. intros st. unfold print, extend. now rewrite app_nil_r. Qed.

Lemma logs_only_bind {A B} (c : M A) (k : A -> M B) :
  logs_only c -> (forall a, logs_only (k a)) -> logs_only (bind c k).
Proof.
  intros (r & msgs & Hc) Hk. destruct r as [a|e].
  - destruct (Hk a) as (r' & msgs' & Hka).
    exists r', (msgs ++ msgs')%list. intros st. unfold bind.
    rewrite Hc, Hka, extend_extend. reflexivity.
  - exists (Raise e), msgs. intros st. unfold bind. now rewrite Hc.
Qed.

Lemma logs_only_try {A} (body : M A) (hs : list (handler A)) :
  logs_only body -> Forall (fun h => forall e, logs_only (snd h e)) hs ->
  logs_only (try_except body hs).
Proof.
  intros (r & msgs & Hb) Hhs. destruct r as [a|e].
  - exists (Ok a), msgs. intros st. unfold try_except. now rewrite Hb.
  - assert (Hfind : match find_handler e hs with
                    | Some h => logs_only (h e)
                    | None => True
                    end).
    { induction Hhs as [|[classes h] hs' Hh _ IH]; simpl; [exact I|].
      destruct (existsb (isinstance e) classes); [apply Hh | exact IH]. }
    destruct (find_handler e hs) as [h|] eqn:Hf.
    + destruct Hfind as (r' & msgs' & Hh).
      exists r', (msgs ++ msgs')%list. intros st. unfold try_except.
      rewrite Hb, Hf, Hh, extend_extend. reflexivity.
    + exists (Raise e), msgs. intros st. unfold try_except. now rewrite Hb, Hf.
Qed.

Lemma logs_only_run {A} (c : M A) :
  logs_only c ->
  forall st, c st = (fst (c blank), extend [] (stdout (snd (c blank))) st).
Proof.
  intros (r & msgs & Hc) st. rewrite (Hc st), (Hc blank). reflexivity.
Qed.

(** ** The fetcher *)

Lemma fetch_logs_only w city : logs_only (_fetch_city_temperature w city).
Proof.
  unfold _fetch_city_temperature. apply logs_only_try.
  - repeat first
      [ apply logs_only_ret | apply logs_only_lift
      | apply logs_only_bind; [| intros ?] ].
    + unfold requests_get. destruct (http_get w _);
        [apply logs_only_raise | apply logs_only_ret].
    + unfold raise_for_status. destruct (_ && _);
        [apply logs_only_raise | apply logs_only_ret].
    + unfold response_json. destruct (json_loads _);
        [apply logs_only_ret | apply logs_only_raise].
  - repeat constructor; intros e; simpl;
      (apply logs_only_bind; [apply logs_only_print | intros ?; apply logs_only_ret]).
Qed.

(** The fetcher reads and writes nothing of the scraper but standard
    output. *)
Lemma fetch_run w city st :
  _fetch_city_temperature w city st =
  (fetch_result w city, extend [] (fetch_log w city) st).
Proof. apply (logs_only_run _ (fetch_logs_only w city)). Qed.

(** ** The driver *)

Lemma city_body_run w city st :
  city_body w city st = (Ok tt, extend (gathered w city) (city_log w city) st).
Proof.
  unfold city_body, bind, try_except, print at 1, sleep, ret.
  rewrite fetch_run. unfold gathered, city_log.
  destruct (fetch_result w city) as [[r|]|e]; simpl;
    unfold extend; simpl; rewrite ?app_nil_r, <- ?app_assoc; reflexivity.
Qed.

Lemma for_each_cities w cs st :
  for_each cs (city_body w) st =
  (Ok tt, extend (collected w cs) (flat_map (city_log w) cs) st).
Proof.
  revert st. induction cs as [|c cs IH]; intros st; simpl.
  - now rewrite extend_nil.
  - unfold bind at 1. rewrite city_body_run, IH, extend_extend. reflexivity.
Qed.

(** The whole run: the result, the collection and the output. *)
Lemma scrape_run w st :
  scrape_weather_data w st =
  (Ok (temperature_data st ++ collected w (cities st))%list,
   extend (collected w (cities st))
     ([MsgStarting; MsgRule] ++ flat_map (city_log w) (cities st) ++ [MsgRule])%list st).
Proof.
  unfold scrape_weather_data.
  unfold bind, print, gets. simpl.
  rewrite for_each_cities. unfold extend; simpl.
  rewrite ?app_nil_r, <- ?app_assoc. reflexivity.
Qed.

Lemma length_collected w cs : length (collected w cs) = count_successes w cs.
Proof.
  unfold collected, count_successes, gathered, succeeds.
  induction cs as [|c cs IH]; simpl; [reflexivity|].
  rewrite length_app, IH.
  destruct (fetch_result w c) as [[r|]|e]; reflexivity.
Qed.

Lemma bind_ok {A B} (c : M A) (k : A -> M B) st b st' :
  bind c k st = (Ok b, st') ->
  exists a st1, c st = (Ok a, st1) /\ k a st1 = (Ok b, st').
Proof.
  unfold bind. destruct (c st) as [[a|e] st1]; [eauto | discriminate].
Qed.

(** A record carries the name of the city it was fetched for. *)
Lemma fetch_result_city w city r : fetch_result w city = Ok (Some r) -> City r = city.
Proof.
  unfold fetch_result.
  destruct (_fetch_city_temperature w city blank) as [res st'] eqn:E.
  simpl. intros ->. unfold _fetch_city_temperature, try_except in E.
  match type of E with
  | context [match ?body blank with _ => _ end] =>
      destruct (body blank) as [[o|e] s1] eqn:Hb
  end.
  - injection E as -> _.
    repeat (apply bind_ok in Hb; destruct Hb as (? & ? & _ & Hb)).
    injection Hb as <- _. reflexivity.
  - destruct e; simpl in E; discriminate.
Qed.

Lemma cities_collected w cs : map City (collected w cs) = List.filter (succeeds w) cs.
Proof.
  unfold collected, gathered, succeeds.
  induction cs as [|c cs IH]; simpl; [reflexivity|].
  rewrite map_app, IH.
  destruct (fetch_result w c) as [[r|]|e] eqn:Hf; simpl; try reflexivity.
  now rewrite (fetch_result_city _ _ _ Hf).
Qed.

(** ** The exporters *)

Lemma save_to_csv_empty now st :
  temperature_data st = [] ->
  save_to_csv now st = (Ok RNone, extend [] [MsgNoDataToSave] st).
Proof.
  intros H. unfold save_to_csv, bind, gets. rewrite H. unfold print, ret, extend.
  simpl. rewrite H. reflexivity.
Qed.

Lemma save_to_json_empty now st :
  temperature_data st = [] ->
  save_to_json now st = (Ok RNone, extend [] [MsgNoDataToSave] st).
Proof.
  intros H. unfold save_to_json, bind, gets. rewrite H. unfold print, ret, extend.
  simpl. rewrite H. reflexivity.
Qed.

(** *** Opening and writing *)

Lemma can_write_true path st :
  can_write path st = true ->
  bool_decide (output_dir st ∈ dirs st) = true /\ bool_decide (path ∈ dirs st) = false.
Proof.
  unfold can_write. intros H. apply andb_true_iff in H as [H1 H2].
  split; [exact H1 | now apply negb_true_iff].
Qed.

Lemma put_file_twice path f g st :
  put_file path f (put_file path g st) = put_file path f st.
Proof. unfold put_file. simpl. now rewrite insert_insert_eq. Qed.

(** The file is opened and written: the write ends normally when the
    content has a UTF-8 encoding and raises otherwise, and the file holds
    what the write left. *)
Lemma open_write_run dir path f st :
  bool_decide (dir ∈ dirs st) = true -> bool_decide (path ∈ dirs st) = false ->
  (open_w dir path ;; write_file path f) st =
  (if file_encodable f then Ok tt else Raise UnicodeEncodeError,
   put_file path (left_by_write f) st).
Proof.
  intros H1 H2. unfold bind, open_w. rewrite H1, H2.
  unfold write_file, left_by_write.
  destruct (file_encodable f); now rewrite put_file_twice.
Qed.

(** The file cannot be opened: the call raises and nothing changes. *)
Lemma open_w_refused dir path st :
  bool_decide (dir ∈ dirs st) && negb (bool_decide (path ∈ dirs st)) = false ->
  exists e, open_w dir path st = (Raise e, st).
Proof.
  intros H. unfold open_w.
  destruct (bool_decide (dir ∈ dirs st)).
  - destruct (bool_decide (path ∈ dirs st)); [eauto | discriminate].
  - destruct (is_file dir (files st)); eauto.
Qed.

(** *** The three ways an export of records ends *)

Lemma save_to_csv_run now st :
  temperature_data st <> [] ->
  can_write (csv_path now st) st = true ->
  file_encodable (to_csv (sorted_frame st)) = true ->
  save_to_csv now st =
  (Ok (RFrame (sorted_frame st)),
   written (csv_path now st) (to_csv (sorted_frame st)) (MsgCsvSaved (csv_path now st)) st).
Proof.
  intros H Hw He. apply can_write_true in Hw as [H1 H2].
  unfold save_to_csv, bind at 1, gets at 1.
  destruct (temperature_data st) as [|r data] eqn:E; [congruence|].
  unfold bind at 1, gets at 1.
  unfold bind at 1, check_parent_directory. rewrite H1.
  fold (csv_path now st).
  assert (Ho := open_write_run (output_dir st) (csv_path now st)
                  (to_csv (sorted_frame st)) st H1 H2).
  unfold sorted_frame in Ho, He. rewrite E in Ho, He. rewrite He in Ho.
  unfold bind in Ho. unfold bind.
  destruct (open_w (output_dir st) (csv_path now st) st) as [[[]|e] s1]; [|discriminate].
  destruct (write_file (csv_path now st)
              (to_csv (sort_values_max_desc (DataFrame (r :: data)))) s1) as [[[]|e] s2];
    [|discriminate].
  injection Ho as ->. unfold left_by_write. rewrite He.
  unfold sorted_frame. rewrite E. reflexivity.
Qed.

Lemma save_to_csv_truncates now st :
  temperature_data st <> [] ->
  can_write (csv_path now st) st = true ->
  file_encodable (to_csv (sorted_frame st)) = false ->
  save_to_csv now st = (Raise UnicodeEncodeError, put_file (csv_path now st) Truncated st).
Proof.
  intros H Hw He. apply can_write_true in Hw as [H1 H2].
  unfold save_to_csv, bind at 1, gets at 1.
  destruct (temperature_data st) as [|r data] eqn:E; [congruence|].
  unfold bind at 1, gets at 1.
  unfold bind at 1, check_parent_directory. rewrite H1.
  fold (csv_path now st).
  assert (Ho := open_write_run (output_dir st) (csv_path now st)
                  (to_csv (sorted_frame st)) st H1 H2).
  unfold sorted_frame in Ho, He. rewrite E in Ho, He. rewrite He in Ho.
  unfold bind in Ho. unfold bind.
  destruct (open_w (output_dir st) (csv_path now st) st) as [[[]|e] s1].
  - destruct (write_file (csv_path now st)
                (to_csv (sort_values_max_desc (DataFrame (r :: data)))) s1) as [[[]|e] s2];
      [discriminate|].
    injection Ho as -> ->. unfold left_by_write. now rewrite He.
  - injection Ho as -> ->. unfold left_by_write. now rewrite He.
Qed.

Lemma save_to_csv_refused now st :
  temperature_data st <> [] ->
  can_write (csv_path now st) st = false ->
  exists e, save_to_csv now st = (Raise e, st).
Proof.
  intros H Hw. unfold can_write in Hw.
  unfold save_to_csv, bind at 1, gets at 1.
  destruct (temperature_data st) as [|r data] eqn:E; [congruence|].
  unfold bind at 1, gets at 1.
  unfold bind at 1, check_parent_directory.
  fold (csv_path now st).
  destruct (bool_decide (output_dir st ∈ dirs st)) eqn:H1; [|eauto].
  destruct (open_w_refused (output_dir st) (csv_path now st) st) as [e He];
    [now rewrite H1|].
  exists e. unfold bind. now rewrite He.
Qed.

Lemma save_to_json_run now st :
  temperature_data st <> [] ->
  can_write (json_path now st) st = true ->
  encodable (json_dumps (as_pyval (temperature_data st))) = true ->
  save_to_json now st =
  (Ok (RPath (json_path now st)),
   written (json_path now st) (TextFile (json_dumps (as_pyval (temperature_data st))))
     (MsgJsonSaved (json_path now st)) st).
Proof.
  intros H Hw He. apply can_write_true in Hw as [H1 H2].
  unfold save_to_json, bind at 1, gets at 1.
  destruct (temperature_data st) as [|r data] eqn:E; [congruence|].
  unfold bind at 1, gets at 1.
  fold (json_path now st).
  assert (Ho := open_write_run (output_dir st) (json_path now st)
                  (TextFile (json_dumps (as_pyval (r :: data)))) st H1 H2).
  cbn [file_encodable] in Ho. rewrite He in Ho.
  unfold bind in Ho. unfold bind.
  destruct (open_w (output_dir st) (json_path now st) st) as [[[]|e] s1]; [|discriminate].
  destruct (write_file (json_path now st)
              (TextFile (json_dumps (as_pyval (r :: data)))) s1) as [[[]|e] s2];
    [|discriminate].
  injection Ho as ->. unfold left_by_write. cbn [file_encodable]. rewrite He. reflexivity.
Qed.

Lemma save_to_json_truncates now st :
  temperature_data st <> [] ->
  can_write (json_path now st) st = true ->
  encodable (json_dumps (as_pyval (temperature_data st))) = false ->
  save_to_json now st = (Raise UnicodeEncodeError, put_file (json_path now st) Truncated st).
Proof.
  intros H Hw He. apply can_write_true in Hw as [H1 H2].
  unfold save_to_json, bind at 1, gets at 1.
  destruct (temperature_data st) as [|r data] eqn:E; [congruence|].
  unfold bind at 1, gets at 1.
  fold (json_path now st).
  assert (Ho := open_write_run (output_dir st) (json_path now st)
                  (TextFile (json_dumps (as_pyval (r :: data)))) st H1 H2).
  cbn [file_encodable] in Ho. rewrite He in Ho.
  unfold bind in Ho. unfold bind.
  destruct (open_w (output_dir st) (json_path now st) st) as [[[]|e] s1].
  - destruct (write_file (json_path now st)
                (TextFile (json_dumps (as_pyval (r :: data)))) s1) as [[[]|e] s2];
      [discriminate|].
    injection Ho as -> ->. unfold left_by_write. cbn [file_encodable]. now rewrite He.
  - injection Ho as -> ->. unfold left_by_write. cbn [file_encodable]. now rewrite He.
Qed.

Lemma save_to_json_refused now st :
  temperature_data st <> [] ->
  can_write (json_path now st) st = false ->
  exists e, save_to_json now st = (Raise e, st).
Proof.
  intros H Hw. unfold can_write in Hw.
  unfold save_to_json, bind at 1, gets at 1.
  destruct (temperature_data st) as [|r data] eqn:E; [congruence|].
  unfold bind at 1, gets at 1.
  fold (json_path now st).
  destruct (open_w_refused (output_dir st) (json_path now st) st) as [e He];
    [exact Hw|].
  exists e. unfold bind. now rewrite He.
Qed.

(** *** What every export leaves *)

(** The state after an export, whichever way it ended: the state before
    it, with a line printed or a file put, or as it was. *)
Lemma save_to_csv_ends now st :
  exists f msgs,
    snd (save_to_csv now st) = extend [] msgs st \/
    snd (save_to_csv now st) = extend [] msgs (put_file (csv_path now st) f st).
Proof.
  destruct (temperature_data st) as [|r data] eqn:E.
  - exists Truncated, [MsgNoDataToSave]. left. now rewrite save_to_csv_empty.
  - assert (Hne : temperature_data st <> []) by congruence.
    destruct (can_write (csv_path now st) st) eqn:Hw.
    + destruct (file_encodable (to_csv (sorted_frame st))) eqn:He.
      * exists (to_csv (sorted_frame st)), [MsgCsvSaved (csv_path now st)]. right.
        rewrite save_to_csv_run by assumption.
        unfold written, extend, put_file. simpl. now rewrite app_nil_r.
      * exists Truncated, []. right.
        rewrite save_to_csv_truncates by assumption. simpl. now rewrite extend_nil.
    + destruct (save_to_csv_refused now st Hne Hw) as [e ->].
      exists Truncated, []. left. simpl. now rewrite extend_nil.
Qed.

Lemma save_to_json_ends now st :
  exists f msgs,
    snd (save_to_json now st) = extend [] msgs st \/
    snd (save_to_json now st) = extend [] msgs (put_file (json_path now st) f st).
Proof.
  destruct (temperature_data st) as [|r data] eqn:E.
  - exists Truncated, [MsgNoDataToSave]. left. now rewrite save_to_json_empty.
  - assert (Hne : temperature_data st <> []) by congruence.
    destruct (can_write (json_path now st) st) eqn:Hw.
    + destruct (encodable (json_dumps (as_pyval (temperature_data st)))) eqn:He.
      * exists (TextFile (json_dumps (as_pyval (temperature_data st)))),
               [MsgJsonSaved (json_path now st)]. right.
        rewrite save_to_json_run by assumption.
        unfold written, extend, put_file. simpl. now rewrite app_nil_r.
      * exists Truncated, []. right.
        rewrite save_to_json_truncates by assumption. simpl. now rewrite extend_nil.
    + destruct (save_to_json_refused now st Hne Hw) as [e ->].
      exists Truncated, []. left. simpl. now rewrite extend_nil.
Qed.

(** Neither exporter touches the collection. *)
Lemma save_to_csv_keeps_data now st :
  temperature_data (snd (save_to_csv now st)) = temperature_data st.
Proof.
  destruct (save_to_csv_ends now st) as (f & msgs & [->| ->]); simpl; apply app_nil_r.
Qed.

Lemma save_to_json_keeps_data now st :
  temperature_data (snd (save_to_json now st)) = temperature_data st.
Proof.
  destruct (save_to_json_ends now st) as (f & msgs & [->| ->]); simpl; apply app_nil_r.
Qed.

Lemma save_to_csv_keeps_dir now st :
  output_dir (snd (save_to_csv now st)) = output_dir st /\
  dirs (snd (save_to_csv now st)) = dirs st /\
  cities (snd (save_to_csv now st)) = cities st.
Proof.
  destruct (save_to_csv_ends now st) as (f & msgs & [->| ->]); now repeat split.
Qed.

Lemma save_to_json_keeps_dir now st :
  output_dir (snd (save_to_json now st)) = output_dir st /\
  dirs (snd (save_to_json now st)) = dirs st /\
  cities (snd (save_to_json now st)) = cities st.
Proof.
  destruct (save_to_json_ends now st) as (f & msgs & [->| ->]); now repeat split.
Qed.

(** The files after an export. *)
Lemma save_to_csv_files now st :
  files (snd (save_to_csv now st)) =
  match temperature_data st with
  | [] => files st
  | _ =>
      if can_write (csv_path now st) st then
        <[csv_path now st := left_by_write (to_csv (sorted_frame st))]> (files st)
      else files st
  end.
Proof.
  destruct (temperature_data st) as [|r data] eqn:E.
  - now rewrite save_to_csv_empty.
  - assert (Hne : temperature_data st <> []) by congruence.
    destruct (can_write (csv_path now st) st) eqn:Hw.
    + unfold left_by_write.
      destruct (file_encodable (to_csv (sorted_frame st))) eqn:He.
      * rewrite save_to_csv_run by assumption. reflexivity.
      * rewrite save_to_csv_truncates by assumption. reflexivity.
    + now destruct (save_to_csv_refused now st Hne Hw) as [e ->].
Qed.

Lemma save_to_json_files now st :
  files (snd (save_to_json now st)) =
  match temperature_data st with
  | [] => files st
  | _ =>
      if can_write (json_path now st) st then
        <[json_path now st :=
            left_by_write (TextFile (json_dumps (as_pyval (temperature_data st))))]> (files st)
      else files st
  end.
Proof.
  destruct (temperature_data st) as [|r data] eqn:E.
  - now rewrite save_to_json_empty.
  - assert (Hne : temperature_data st <> []) by congruence.
    destruct (can_write (json_path now st) st) eqn:Hw.
    + unfold left_by_write. cbn [file_encodable]. rewrite <- E.
      destruct (encodable (json_dumps (as_pyval (temperature_data st)))) eqn:He.
      * rewrite save_to_json_run by assumption. reflexivity.
      * rewrite save_to_json_truncates by assumption. reflexivity.
    + now destruct (save_to_json_refused now st Hne Hw) as [e ->].
Qed.

Lemma csv_path_dir now st st' : output_dir st' = output_dir st -> csv_path now st' = csv_path now st.
Proof. unfold csv_path. now intros ->. Qed.

Lemma json_path_dir now st st' :
  output_dir st' = output_dir st -> json_path now st' = json_path now st.
Proof. unfold json_path. now intros ->. Qed.

Lemma sorted_frame_data st st' :
  temperature_data st' = temperature_data st -> sorted_frame st' = sorted_frame st.
Proof. unfold sorted_frame. now intros ->. Qed.

Lemma can_write_same path st st' :
  output_dir st' = output_dir st -> dirs st' = dirs st ->
  can_write path st' = can_write path st.
Proof. unfold can_write. now intros -> ->. Qed.

(** ** Claims on the driver and the exporters *)

(** C1, as amended: on a scraper that holds no records, a run in which K
    fetches succeed returns exactly K records, for the successful cities in
    the order of the city list, and an empty list when K is zero; the run
    does not raise. *)
Theorem run_on_empty_collection w st :
  temperature_data st = [] ->
  exists rs,
    fst (scrape_weather_data w st) = Ok rs /\
    length rs = count_successes w (cities st) /\
    map City rs = List.filter (succeeds w) (cities st) /\
    (count_successes w (cities st) = 0%nat -> rs = []).
Proof.
  intros H. exists (collected w (cities st)).
  rewrite scrape_run, H. simpl.
  split; [reflexivity|]. split; [apply length_collected|].
  split; [apply cities_collected|].
  intros H0. apply length_zero_iff_nil. now rewrite length_collected.
Qed.

Lemma run_on_empty_collection_witness :
  exists rs,
    fst (scrape_weather_data mumbai_only fresh) = Ok rs /\
    length rs = count_successes mumbai_only (cities fresh) /\
    map City rs = List.filter (succeeds mumbai_only) (cities fresh) /\
    (count_successes mumbai_only (cities fresh) = 0%nat -> rs = []).
Proof. apply (run_on_empty_collection mumbai_only fresh). reflexivity. Defined.

(** C1 as stated fails on a scraper that has run before: in a second run
    with no successful fetch the result still holds the record of the
    first run. *)
Lemma second_run_returns_old_records :
  count_successes silent (cities after_first_run) = 0%nat /\
  fst (scrape_weather_data silent after_first_run) = Ok [mumbai].
Proof. split; vm_compute; reflexivity. Qed.

(** C9, as amended: the exporters leave the collection as it is, and a
    later run returns the records held before it followed by its own. *)
Theorem records_are_kept now w st :
  temperature_data (snd (save_to_csv now st)) = temperature_data st /\
  temperature_data (snd (save_to_json now st)) = temperature_data st /\
  fst (scrape_weather_data w st) = Ok (temperature_data st ++ collected w (cities st))%list /\
  temperature_data (snd (scrape_weather_data w st))
    = (temperature_data st ++ collected w (cities st))%list.
Proof.
  split; [apply save_to_csv_keeps_data|].
  split; [apply save_to_json_keeps_data|].
  rewrite scrape_run. split; reflexivity.
Qed.

(** C9 as stated fails: after the export of the first run the record is
    still held, and the next run returns it together with its own. *)
Lemma export_does_not_discard :
  temperature_data (snd (save_to_csv sample_time after_first_run)) = [mumbai] /\
  fst (scrape_weather_data shimla_only (snd (save_to_csv sample_time after_first_run)))
    = Ok [mumbai; shimla].
Proof. split; vm_compute; reflexivity. Qed.

(** C10: a run never raises.  Whatever exception the fetcher lets out for a
    city, the body of the loop ends normally, having printed the
    exception and added no record; the output of the run lists every city
    of the list in turn. *)
Theorem scrape_never_raises w st :
  exists rs st',
    scrape_weather_data w st = (Ok rs, st') /\
    stdout st' = (stdout st ++ [MsgStarting; MsgRule]
                    ++ flat_map (city_log w) (cities st) ++ [MsgRule])%list /\
    forall city e s,
      fst (_fetch_city_temperature w city s) = Raise e ->
      city_body w city s =
      (Ok tt, extend [] (MsgFetching city :: fetch_log w city ++ [MsgError e]) s).
Proof.
  eexists _, _. split; [apply scrape_run|]. split; [reflexivity|].
  intros city e s H. rewrite fetch_run in H. simpl in H.
  rewrite city_body_run. unfold gathered, city_log. rewrite H. reflexivity.
Qed.

(** The two faults C10 names do leave the fetcher: the conversion of a
    temperature that is no number, and the index into an empty array. *)
Lemma non_numeric_temperature_raises :
  fetch_result (serving [("Pune", Response 200 non_numeric_body)]) "Pune" = Raise ValueError.
Proof. vm_compute. reflexivity. Qed.

Lemma run_survives_bad_bodies :
  let w := serving [("Kolkata", Response 200 non_numeric_body);
                    ("Mumbai", Response 200 sample_body);
                    ("Pune", Response 200 empty_array_body)] in
  fst (scrape_weather_data w fresh) = Ok [mumbai] /\
  In (MsgError ValueError) (stdout (snd (scrape_weather_data w fresh))) /\
  In (MsgError IndexError) (stdout (snd (scrape_weather_data w fresh))).
Proof. vm_compute. split; [reflexivity|]. split; tauto. Qed.

(** C2 fails on the code: with an empty [current_condition] array the
    fetcher returns nothing and prints nothing; [IndexError] leaves the
    call. *)
Theorem empty_array_raises_out_of_fetcher :
  _fetch_city_temperature (serving [("Pune", Response 200 empty_array_body)]) "Pune" fresh
  = (Raise IndexError, fresh).
Proof. vm_compute. reflexivity. Qed.

(** What C2 says does hold for a missing key: the fetcher returns [None]
    and reports a parse error. *)
Lemma missing_key_is_a_parse_failure :
  _fetch_city_temperature (serving [("Pune", Response 200 no_weather_body)]) "Pune" fresh
  = (Ok None, extend [] [MsgErrorParsing "Pune" (KeyError (Key "weather"))] fresh).
Proof. vm_compute. reflexivity. Qed.

(** A body that is not JSON gives [None] as well, through the first
    [except] clause: the exception [response.json()] raises is a
    [RequestException]. *)
Lemma non_json_body_is_reported_as_fetch_error :
  _fetch_city_temperature (serving [("Pune", Response 200 "<html>")]) "Pune" fresh
  = (Ok None, extend [] [MsgErrorFetching "Pune" InvalidJSON] fresh).
Proof. vm_compute. reflexivity. Qed.

(** C3: with no records held, both exporters return [None], print that
    there is no data, and leave the file system as it was. *)
Theorem export_of_nothing now st :
  temperature_data st = [] ->
  (fst (save_to_csv now st) = Ok RNone /\
   files (snd (save_to_csv now st)) = files st /\
   stdout (snd (save_to_csv now st)) = (stdout st ++ [MsgNoDataToSave])%list) /\
  (fst (save_to_json now st) = Ok RNone /\
   files (snd (save_to_json now st)) = files st /\
   stdout (snd (save_to_json now st)) = (stdout st ++ [MsgNoDataToSave])%list).
Proof.
  intros H. rewrite save_to_csv_empty, save_to_json_empty by assumption.
  repeat split.
Qed.

Lemma export_of_nothing_witness :
  (fst (save_to_csv sample_time fresh) = Ok RNone /\
   files (snd (save_to_csv sample_time fresh)) = files fresh /\
   stdout (snd (save_to_csv sample_time fresh)) = (stdout fresh ++ [MsgNoDataToSave])%list) /\
  (fst (save_to_json sample_time fresh) = Ok RNone /\
   files (snd (save_to_json sample_time fresh)) = files fresh /\
   stdout (snd (save_to_json sample_time fresh)) = (stdout fresh ++ [MsgNoDataToSave])%list).
Proof. apply (export_of_nothing sample_time fresh). reflexivity. Defined.

(** ** The order on floats *)

Lemma pow10_pos k : 0 < 10 ^ k \/ k < 0.
Proof.
  destruct (Z.lt_ge_cases k 0) as [H|H]; [now right | left].
  apply Z.pow_pos_nonneg; lia.
Qed.

Lemma scaled_shift m' m f :
  m' <= m -> m <= expo f -> scaled m' f = scaled m f * 10 ^ (m - m').
Proof.
  intros H1 H2. unfold scaled.
  replace (expo f - m') with ((expo f - m) + (m - m')) by lia.
  rewrite Z.pow_add_r by lia. ring.
Qed.

Lemma float_leb_at m a b :
  m <= expo a -> m <= expo b ->
  (float_leb a b = true <-> scaled m a <= scaled m b).
Proof.
  intros Ha Hb. unfold float_leb.
  set (m0 := Z.min (expo a) (expo b)).
  assert (Hm : m <= m0) by (unfold m0; lia).
  rewrite (scaled_shift m m0 a), (scaled_shift m m0 b) by (unfold m0; lia).
  assert (Hp : 0 < 10 ^ (m0 - m)) by (apply Z.pow_pos_nonneg; lia).
  rewrite Z.leb_le. split; intros H.
  - apply Z.mul_le_mono_nonneg_r; lia.
  - apply Z.mul_le_mono_pos_r in H; assumption.
Qed.

Lemma float_ltb_at m a b :
  m <= expo a -> m <= expo b ->
  (float_ltb a b = true <-> scaled m a < scaled m b).
Proof.
  intros Ha Hb. unfold float_ltb. rewrite negb_true_iff, <- not_true_iff_false.
  rewrite (float_leb_at m b a) by assumption. lia.
Qed.

Lemma float_eqb_at m a b :
  m <= expo a -> m <= expo b ->
  (float_eqb a b = true <-> scaled m a = scaled m b).
Proof.
  intros Ha Hb. unfold float_eqb. rewrite andb_true_iff.
  rewrite (float_leb_at m a b), (float_leb_at m b a) by assumption. lia.
Qed.

(** Brings every comparison of the floats at hand to integers at one
    scale, the smallest of the three exponents. *)
Ltac float_order a b c :=
  unfold float_le, float_lt, float_eq in *;
  let m := fresh "m" in
  set (m := Z.min (expo a) (Z.min (expo b) (expo c)));
  assert (m <= expo a) by (unfold m; lia);
  assert (m <= expo b) by (unfold m; lia);
  assert (m <= expo c) by (unfold m; lia);
  repeat match goal with
         | H : float_leb ?x ?y = true |- _ => apply (float_leb_at m) in H; [| assumption ..]
         | H : float_ltb ?x ?y = true |- _ => apply (float_ltb_at m) in H; [| assumption ..]
         | H : float_eqb ?x ?y = true |- _ => apply (float_eqb_at m) in H; [| assumption ..]
         end;
  repeat match goal with
         | |- float_leb ?x ?y = true => apply (float_leb_at m); [assumption .. |]
         | |- float_ltb ?x ?y = true => apply (float_ltb_at m); [assumption .. |]
         | |- float_eqb ?x ?y = true => apply (float_eqb_at m); [assumption .. |]
         end;
  try lia.

Lemma float_le_refl a : float_le a a.
Proof. float_order a a a. Qed.

Lemma float_le_trans a b c : float_le a b -> float_le b c -> float_le a c.
Proof. intros H1 H2. float_order a b c. Qed.

Lemma float_lt_le a b : float_lt a b -> float_le a b.
Proof. intros H. float_order a b b. Qed.

Lemma float_lt_trans a b c : float_lt a b -> float_lt b c -> float_lt a c.
Proof. intros H1 H2. float_order a b c. Qed.

Lemma float_lt_le_trans a b c : float_lt a b -> float_le b c -> float_lt a c.
Proof. intros H1 H2. float_order a b c. Qed.

Lemma float_le_lt_trans a b c : float_le a b -> float_lt b c -> float_lt a c.
Proof. intros H1 H2. float_order a b c. Qed.

Lemma float_not_lt a b : float_ltb a b = false -> float_le b a.
Proof.
  unfold float_ltb, float_le. intros H. now apply negb_false_iff in H.
Qed.

Lemma float_le_total a b : float_le a b \/ float_le b a.
Proof.
  destruct (float_ltb a b) eqn:E.
  - left. now apply float_lt_le.
  - right. now apply float_not_lt.
Qed.

Lemma float_le_cases a b : float_le a b -> float_lt a b \/ float_eq a b.
Proof.
  intros H. destruct (float_ltb a b) eqn:E; [now left | right].
  apply float_not_lt in E. unfold float_eq, float_eqb, float_le in *.
  now rewrite H, E.
Qed.

Lemma float_eq_sym a b : float_eq a b -> float_eq b a.
Proof. intros H. float_order a b b. Qed.

Lemma float_eq_trans a b c : float_eq a b -> float_eq b c -> float_eq a c.
Proof. intros H1 H2. float_order a b c. Qed.

Lemma float_eq_lt_trans a b c : float_eq a b -> float_lt b c -> float_lt a c.
Proof. intros H1 H2. float_order a b c. Qed.

Lemma float_lt_eq_trans a b c : float_lt a b -> float_eq b c -> float_lt a c.
Proof. intros H1 H2. float_order a b c. Qed.

Lemma hotter_trans a b c : hotter a b -> hotter b c -> hotter a c.
Proof.
  unfold hotter. intros [H1|[H1 L1]] [H2|[H2 L2]].
  - left. eapply float_lt_trans; eassumption.
  - left. eapply float_eq_lt_trans; [apply float_eq_sym|]; eassumption.
  - left. eapply float_lt_eq_trans; [|apply float_eq_sym]; eassumption.
  - right. split; [eapply float_eq_trans; eassumption | lia].
Qed.

Lemma colder_trans a b c : colder a b -> colder b c -> colder a c.
Proof.
  unfold colder. intros [H1|[H1 L1]] [H2|[H2 L2]].
  - left. eapply float_lt_trans; eassumption.
  - left. eapply float_lt_eq_trans; eassumption.
  - left. eapply float_eq_lt_trans; eassumption.
  - right. split; [eapply float_eq_trans; eassumption | lia].
Qed.

(** ** The stable sort *)

Section StableSortFacts.
Context {A : Type} (ahead : A -> A -> bool) (R : A -> A -> Prop).
Hypothesis ahead_R : forall y x, ahead y x = true -> R y x.
Hypothesis R_trans : forall x y z, R x y -> R y z -> R x z.

Lemma insert_stable_perm x l : Permutation (x :: l) (insert_stable ahead x l).
Proof.
  induction l as [|y l IH]; simpl; [reflexivity|].
  destruct (ahead y x); [|reflexivity].
  rewrite perm_swap. now apply perm_skip.
Qed.

Lemma stable_sort_perm l : Permutation l (stable_sort ahead l).
Proof.
  induction l as [|x l IH]; simpl; [reflexivity|].
  rewrite <- insert_stable_perm. now apply perm_skip.
Qed.

(** Inserting [x] keeps the list sorted when [x] may stand before every
    element that is not ahead of it. *)
Lemma insert_stable_sorted x l :
  StronglySorted R l ->
  Forall (fun y => ahead y x = false -> R x y) l ->
  StronglySorted R (insert_stable ahead x l).
Proof.
  intros Hs Hx. induction Hs as [|y l Hs IH Hy]; simpl.
  - repeat constructor.
  - inversion Hx as [|? ? Hxy Hxl]; subst.
    destruct (ahead y x) eqn:E.
    + constructor; [now apply IH|].
      apply (Permutation_Forall (insert_stable_perm x l)).
      constructor; [now apply ahead_R | assumption].
    + constructor; [now constructor|].
      constructor; [now apply Hxy|].
      eapply List.Forall_impl; [|exact Hy]. intros z Hz.
      eapply R_trans; [now apply Hxy | exact Hz].
Qed.

(** The sort orders by [R] every list in which an element may stand before
    each later one that is not ahead of it. *)
Lemma stable_sort_sorted l :
  StronglySorted (fun x y => ahead y x = false -> R x y) l ->
  StronglySorted R (stable_sort ahead l).
Proof.
  induction 1 as [|x l Hs IH Hx]; simpl; [constructor|].
  apply insert_stable_sorted; [exact IH|].
  now apply (Permutation_Forall (stable_sort_perm l)).
Qed.


End StableSortFacts.

Lemma sorted_map {A B} (f : A -> B) (R : B -> B -> Prop) l :
  StronglySorted (fun a b => R (f a) (f b)) l -> StronglySorted R (map f l).
Proof.
  induction 1 as [|x l Hs IH Hx]; simpl; constructor; [exact IH|].
  rewrite List.Forall_map. exact Hx.
Qed.

(** ** The data frame *)

Lemma rows_labels {A} (data : list A) start :
  map fst (combine (seq start (length data)) data) = seq start (length data).
Proof.
  revert start. induction data as [|r data IH]; intros start; simpl; [reflexivity|].
  now rewrite IH.
Qed.

Lemma rows_records {A} (data : list A) start :
  map snd (combine (seq start (length data)) data) = data.
Proof.
  revert start. induction data as [|r data IH]; intros start; simpl; [reflexivity|].
  now rewrite IH.
Qed.

Lemma combine_seq_app {A} (a b : list A) start :
  combine (seq start (length (a ++ b))) (a ++ b) =
  (combine (seq start (length a)) a
     ++ combine (seq (start + length a) (length b)) b)%list.
Proof.
  revert start. induction a as [|x a IH]; intros start; simpl.
  - now rewrite Nat.add_0_r.
  - rewrite IH. now rewrite Nat.add_succ_r.
Qed.

(** The label of a row is its position in the collection. *)
Lemma rows_nth data i r :
  In (i, r) (rows (DataFrame data)) <-> nth_error data i = Some r.
Proof.
  unfold DataFrame; simpl.
  assert (G : forall start,
             In (i, r) (combine (seq start (length data)) data) <->
             (start <= i)%nat /\ nth_error data (i - start) = Some r).
  { induction data as [|x data IH]; intros start; simpl.
    - split; [contradiction|]. intros [_ H]. destruct (i - start)%nat; discriminate.
    - rewrite IH. split.
      + intros [H|[H1 H2]].
        * injection H as <- <-. rewrite Nat.sub_diag. split; [lia | reflexivity].
        * split; [lia|]. replace (i - start)%nat with (S (i - S start)) by lia. exact H2.
      + intros [H1 H2]. destruct (i - start)%nat as [|k] eqn:E.
        * left. injection H2 as <-. f_equal. lia.
        * right. split; [lia|]. replace (i - S start)%nat with k by lia. exact H2. }
  rewrite G, Nat.sub_0_r. split; [now intros [_ H] | intros H; split; [lia | exact H]].
Qed.

(** The labels grow along the rows. *)
Lemma rows_increasing (data : list temperature_record) start :
  StronglySorted (fun a b : nat * temperature_record => (fst a < fst b)%nat)
    (combine (seq start (length data)) data).
Proof.
  revert start. induction data as [|r data IH]; intros start; simpl; constructor.
  - apply IH.
  - rewrite List.Forall_forall. intros [j x] Hj. simpl.
    apply in_combine_l in Hj. apply in_seq in Hj. lia.
Qed.

Lemma loc_unique rs i r :
  List.NoDup (map fst rs) -> In (i, r) rs -> loc rs i = Some r.
Proof.
  induction rs as [|[j x] rs IH]; simpl; intros Hnd Hin; [contradiction|].
  inversion Hnd as [|? ? Hj Hnd']; subst. destruct Hin as [H|H].
  - injection H as -> ->. now rewrite Nat.eqb_refl.
  - destruct (Nat.eqb_spec j i) as [->|Hne].
    + exfalso. apply Hj. apply (in_map fst) in H. exact H.
    + now apply IH.
Qed.

Lemma row_cells_columns r : row_cells (map fst (as_dict r)) r = csv_line r.
Proof. reflexivity. Qed.

Lemma columns_of_frame r data :
  columns (DataFrame (r :: data)) =
  [ "City"; "Min Temp (°C)"; "Max Temp (°C)"; "Current Condition";
    "Humidity (%)"; "Wind Speed (km/h)"; "Fetched At" ].
Proof. reflexivity. Qed.

Lemma sorted_rows_desc rs :
  StronglySorted (fun a b => float_le (Max_Temp (snd b)) (Max_Temp (snd a)))
    (stable_sort by_max_desc rs).
Proof.
  apply stable_sort_sorted.
  - intros y x H. apply float_lt_le. exact H.
  - intros x y z H1 H2. eapply float_le_trans; eassumption.
  - induction rs as [|x rs IH]; constructor; [exact IH|].
    rewrite List.Forall_forall. intros y _ H. apply float_not_lt. exact H.
Qed.

(** The frame [save_to_csv] writes, as a file: the seven column names
    over the lines of the records, sorted by maximum temperature. *)
Lemma to_csv_sorted st :
  temperature_data st <> [] ->
  exists sorted,
    to_csv (sorted_frame st)
      = CsvFile
          [ "City"; "Min Temp (°C)"; "Max Temp (°C)"; "Current Condition";
            "Humidity (%)"; "Wind Speed (km/h)"; "Fetched At" ]
          (map csv_line sorted) /\
    sorted = map snd (rows (sorted_frame st)) /\
    Permutation (temperature_data st) sorted /\
    StronglySorted (fun a b => float_le (Max_Temp b) (Max_Temp a)) sorted.
Proof.
  intros H. exists (map snd (rows (sorted_frame st))).
  unfold sorted_frame, to_csv. simpl.
  destruct (temperature_data st) as [|r data] eqn:E; [congruence|].
  split; [|split; [|split]].
  - rewrite map_map. reflexivity.
  - reflexivity.
  - rewrite <- (rows_records (r :: data) 0) at 1.
    apply Permutation_map, stable_sort_perm.
  - apply sorted_map, sorted_rows_desc.
Qed.







(** ** Extremes *)

(** [argmax_from] returns the first entry that holds the largest value:
    the entries before it are strictly smaller, those after it are not
    larger. *)
Lemma argmax_from_spec best s :
  exists pre post,
    best :: s = (pre ++ argmax_from best s :: post)%list /\
    Forall (fun y => float_lt (snd y) (snd (argmax_from best s))) pre /\
    Forall (fun y => float_le (snd y) (snd (argmax_from best s))) post.
Proof.
  revert best. induction s as [|x s IH]; intros best; simpl.
  - exists [], []. repeat constructor.
  - destruct (float_ltb (snd best) (snd x)) eqn:E.
    + destruct (IH x) as (pre & post & Heq & Hpre & Hpost).
      exists (best :: pre), post. split; [simpl; now rewrite <- Heq|].
      split; [|exact Hpost]. constructor; [|exact Hpre].
      destruct pre as [|p pre]; simpl in Heq.
      * injection Heq as Hx _. rewrite <- Hx. exact E.
      * injection Heq as <- _. inversion Hpre; subst.
        eapply float_lt_trans; eassumption.
    + apply float_not_lt in E.
      destruct (IH best) as (pre & post & Heq & Hpre & Hpost).
      destruct pre as [|p pre]; simpl in Heq.
      * injection Heq as Hb Hs. exists [], (x :: post).
        split; [simpl; now rewrite <- Hb, <- Hs|].
        split; [constructor|]. constructor; [|exact Hpost].
        rewrite <- Hb. exact E.
      * injection Heq as <- Hs. inversion Hpre as [|? ? Hb Hpre']; subst.
        exists (best :: x :: pre), post.
        split; [simpl; do 2 f_equal; exact Hs|]. split; [|exact Hpost].
        constructor; [exact Hb|]. constructor; [|exact Hpre'].
        eapply float_le_lt_trans; eassumption.
Qed.

Lemma argmin_from_spec best s :
  exists pre post,
    best :: s = (pre ++ argmin_from best s :: post)%list /\
    Forall (fun y => float_lt (snd (argmin_from best s)) (snd y)) pre /\
    Forall (fun y => float_le (snd (argmin_from best s)) (snd y)) post.
Proof.
  revert best. induction s as [|x s IH]; intros best; simpl.
  - exists [], []. repeat constructor.
  - destruct (float_ltb (snd x) (snd best)) eqn:E.
    + destruct (IH x) as (pre & post & Heq & Hpre & Hpost).
      exists (best :: pre), post. split; [simpl; now rewrite <- Heq|].
      split; [|exact Hpost]. constructor; [|exact Hpre].
      destruct pre as [|p pre]; simpl in Heq.
      * injection Heq as Hx _. rewrite <- Hx. exact E.
      * injection Heq as <- _. inversion Hpre; subst.
        eapply float_lt_trans; eassumption.
    + apply float_not_lt in E.
      destruct (IH best) as (pre & post & Heq & Hpre & Hpost).
      destruct pre as [|p pre]; simpl in Heq.
      * injection Heq as Hb Hs. exists [], (x :: post).
        split; [simpl; now rewrite <- Hb, <- Hs|].
        split; [constructor|]. constructor; [|exact Hpost].
        rewrite <- Hb. exact E.
      * injection Heq as <- Hs. inversion Hpre as [|? ? Hb Hpre']; subst.
        exists (best :: x :: pre), post.
        split; [simpl; do 2 f_equal; exact Hs|]. split; [|exact Hpost].
        constructor; [exact Hb|]. constructor; [|exact Hpre'].
        eapply float_lt_le_trans; eassumption.
Qed.

(** A split of a column of the frame is a split of the collection. *)
Lemma series_split col data pre am post :
  series col (DataFrame data) = (pre ++ am :: post)%list ->
  exists before r after,
    data = (before ++ r :: after)%list /\
    pre = map (fun row => (fst row, col (snd row)))
            (combine (seq 0 (length before)) before) /\
    snd am = col r /\
    loc (rows (DataFrame data)) (fst am) = Some r /\
    map snd pre = map col before /\
    map snd post = map col after.
Proof.
  unfold series. intros H.
  apply map_eq_app in H. destruct H as (rows1 & rows2 & Hrows & H1 & H2).
  apply map_eq_cons in H2. destruct H2 as (row & rows3 & -> & Hrow & H3).
  exists (map snd rows1), (snd row), (map snd rows3).
  assert (Hdata : data = (map snd rows1 ++ snd row :: map snd rows3)%list).
  { rewrite <- (rows_records data 0) at 1. simpl in Hrows. rewrite Hrows.
    rewrite map_app. reflexivity. }
  split; [exact Hdata|].
  assert (Hpre : rows1 = combine (seq 0 (length (map snd rows1))) (map snd rows1)).
  { simpl in Hrows. rewrite Hdata in Hrows at 1 2.
    rewrite combine_seq_app in Hrows.
    apply app_inj_1 in Hrows; [symmetry; apply Hrows|].
    rewrite !length_combine, !length_seq, !length_map. lia. }
  split; [rewrite <- Hpre; now symmetry|].
  split; [now rewrite <- Hrow|].
  split.
  - apply loc_unique.
    + simpl. rewrite rows_labels. apply seq_NoDup.
    + rewrite Hrows. rewrite <- Hrow. simpl.
      apply in_or_app. right. left. now destruct row.
  - split.
    + rewrite <- H1, !map_map. reflexivity.
    + rewrite <- H3, !map_map. reflexivity.
Qed.

Lemma Forall_through_map {A B C} (f : A -> C) (g : B -> C) (P : C -> Prop) l l' :
  map f l = map g l' -> Forall (fun y => P (f y)) l -> Forall (fun r => P (g r)) l'.
Proof.
  intros Hm H. apply (proj2 (List.Forall_map f P l)) in H. rewrite Hm in H.
  exact (proj1 (List.Forall_map g P l') H).
Qed.

(** The hottest row of a frame with at least one row. *)
Lemma idxmax_spec data :
  data <> [] ->
  exists before hot after,
    data = (before ++ hot :: after)%list /\
    Forall (fun r => float_lt (Max_Temp r) (Max_Temp hot)) before /\
    Forall (fun r => float_le (Max_Temp r) (Max_Temp hot)) after /\
    hottest_city (summarize data) = Some (City hot) /\
    hottest_temp (summarize data) = Some (Max_Temp hot).
Proof.
  intros Hne. unfold summarize; simpl.
  destruct (series Max_Temp (DataFrame data)) as [|x s] eqn:Es.
  - destruct data; [congruence | discriminate].
  - destruct (argmax_from_spec x s) as (pre & post & Heq & Hpre & Hpost).
    rewrite <- Es in Heq.
    destruct (series_split _ _ _ _ _ Heq) as (before & hot & after & Hd & _ & Hv & Hloc & Hb & Ha).
    exists before, hot, after. simpl in Hloc. unfold idxmax, series_max.
    rewrite Hloc, Hv in *. simpl.
    repeat split; try assumption.
    + exact (Forall_through_map snd Max_Temp (fun v => float_lt v (Max_Temp hot)) _ _ Hb Hpre).
    + exact (Forall_through_map snd Max_Temp (fun v => float_le v (Max_Temp hot)) _ _ Ha Hpost).
Qed.

(** The coldest row of a frame with at least one row. *)
Lemma idxmin_spec data :
  data <> [] ->
  exists before cold after,
    data = (before ++ cold :: after)%list /\
    Forall (fun r => float_lt (Min_Temp cold) (Min_Temp r)) before /\
    Forall (fun r => float_le (Min_Temp cold) (Min_Temp r)) after /\
    coldest_city (summarize data) = Some (City cold) /\
    coldest_temp (summarize data) = Some (Min_Temp cold).
Proof.
  intros Hne. unfold summarize; simpl.
  destruct (series Min_Temp (DataFrame data)) as [|x s] eqn:Es.
  - destruct data; [congruence | discriminate].
  - destruct (argmin_from_spec x s) as (pre & post & Heq & Hpre & Hpost).
    rewrite <- Es in Heq.
    destruct (series_split _ _ _ _ _ Heq) as (before & cold & after & Hd & _ & Hv & Hloc & Hb & Ha).
    exists before, cold, after. simpl in Hloc. unfold idxmin, series_min.
    rewrite Hloc, Hv in *. simpl.
    repeat split; try assumption.
    + exact (Forall_through_map snd Min_Temp (fun v => float_lt (Min_Temp cold) v) _ _ Hb Hpre).
    + exact (Forall_through_map snd Min_Temp (fun v => float_le (Min_Temp cold) v) _ _ Ha Hpost).
Qed.




(** The scenario of the specification: Mumbai is the hottest city, Shimla
    the coldest, and the mean maximum is 26. *)
Example summary_of_mumbai_and_shimla :
  hottest_city (summarize [mumbai; shimla]) = Some "Mumbai" /\
  coldest_city (summarize [mumbai; shimla]) = Some "Shimla" /\
  (average_max (summarize [mumbai; shimla]) == 26)%Q.
Proof. repeat split. Qed.

(** ** The five hottest and the five coldest *)

Lemma sorted_impl {A} (P Q : A -> A -> Prop) l :
  (forall x y, P x y -> Q x y) -> StronglySorted P l -> StronglySorted Q l.
Proof.
  intros HPQ. induction 1 as [|x l Hs IH Hx]; constructor; [exact IH|].
  eapply List.Forall_impl; [|exact Hx]. intros y. apply HPQ.
Qed.

Lemma nlargest_sorted data :
  StronglySorted hotter (stable_sort by_max_desc (rows (DataFrame data))).
Proof.
  apply stable_sort_sorted.
  - intros y x H. left. exact H.
  - apply hotter_trans.
  - eapply sorted_impl; [|apply (rows_increasing data 0)].
    intros x y Hlt H. apply float_not_lt in H.
    destruct (float_le_cases _ _ H) as [H'|H'].
    + left. exact H'.
    + right. split; [now apply float_eq_sym | exact Hlt].
Qed.

Lemma nsmallest_sorted data :
  StronglySorted colder (stable_sort by_min_asc (rows (DataFrame data))).
Proof.
  apply stable_sort_sorted.
  - intros y x H. left. exact H.
  - apply colder_trans.
  - eapply sorted_impl; [|apply (rows_increasing data 0)].
    intros x y Hlt H. apply float_not_lt in H.
    destruct (float_le_cases _ _ H) as [H'|H'].
    + left. exact H'.
    + right. split; [exact H' | exact Hlt].
Qed.




(** Seven records, two pairs of them with equal maxima: the five hottest
    come out largest first, the equal ones in the order of the
    collection, and the tie at the fifth place goes to the earlier
    record. *)
Example seven_records_ranked :
  let city name mx :=
    {| City := name; Min_Temp := mkfloat 10 0; Max_Temp := mx;
       Current_Condition := PNone; Humidity := 0; Wind_Speed := mkfloat 0 0;
       Fetched_At := "" |} in
  map (fun t => fst (fst (fst t)))
    (top_hot (summarize
       [ city "a" (mkfloat 30 0); city "b" (mkfloat 35 0); city "c" (mkfloat 3 1);
         city "d" (mkfloat 28 0); city "e" (mkfloat 25 0); city "f" (mkfloat 250 (-1));
         city "g" (mkfloat 40 0) ]))
  = ["g"; "b"; "a"; "c"; "d"].
Proof. reflexivity. Qed.

(** ** Texts *)

Lemma append_nil_r s : s ++ "" = s.
Proof. induction s as [|c s IH]; simpl; [reflexivity | now rewrite IH]. Qed.

Lemma append_assoc a b c : (a ++ b) ++ c = a ++ (b ++ c).
Proof. induction a as [|x a IH]; simpl; [reflexivity | now rewrite IH]. Qed.

Lemma length_append a b : String.length (a ++ b) = (String.length a + String.length b)%nat.
Proof. induction a as [|x a IH]; simpl; [reflexivity | now rewrite IH]. Qed.


Lemma length_string_take n s :
  (n <= String.length s)%nat -> String.length (string_take n s) = n.
Proof.
  revert s. induction n as [|n IH]; intros [|c s]; simpl; intros H; try reflexivity; try lia.
  rewrite IH; lia.
Qed.


(** ** Decimal digits *)

Lemma digit_cases d :
  0 <= d < 10 ->
  is_digit (char_of_digit d) = true /\
  digit_of_char (char_of_digit d) = d /\
  (d <> 0 -> char_of_digit d <> "0"%char).
Proof.
  intros H.
  assert (C : d = 0 \/ d = 1 \/ d = 2 \/ d = 3 \/ d = 4 \/ d = 5 \/ d = 6 \/ d = 7
              \/ d = 8 \/ d = 9) by lia.
  repeat (destruct C as [->|C]); try subst d;
    (split; [reflexivity | split; [reflexivity | intros; try discriminate; congruence]]).
Qed.

Lemma all_digits_app a b : all_digits (a ++ b) = all_digits a && all_digits b.
Proof.
  induction a as [|c a IH]; simpl; [reflexivity|]. now rewrite IH, andb_assoc.
Qed.

Lemma all_digits_zeros k : all_digits (zeros k) = true.
Proof. induction k; simpl; auto. Qed.

Lemma all_digits_take n s : all_digits s = true -> all_digits (string_take n s) = true.
Proof.
  revert s. induction n as [|n IH]; intros [|c s]; simpl; try reflexivity.
  rewrite !andb_true_iff. intros [H1 H2]. split; [assumption | now apply IH].
Qed.

Lemma all_digits_drop n s : all_digits s = true -> all_digits (string_drop n s) = true.
Proof.
  revert s. induction n as [|n IH]; intros [|c s]; simpl; try reflexivity; try tauto.
  rewrite !andb_true_iff. intros [H1 H2]. now apply IH.
Qed.

Lemma digits_val_acc_app acc a b :
  digits_val_acc acc (a ++ b) = digits_val_acc (digits_val_acc acc a) b.
Proof.
  revert acc. induction a as [|c a IH]; intros acc; simpl; [reflexivity | apply IH].
Qed.

Lemma digits_val_acc_shift acc s :
  digits_val_acc acc s = acc * 10 ^ Z.of_nat (String.length s) + digits_val s.
Proof.
  unfold digits_val. revert acc. induction s as [|c s IH]; intros acc.
  - simpl. lia.
  - cbn [digits_val_acc String.length]. rewrite IH, (IH (10 * 0 + digit_of_char c)).
    rewrite Nat2Z.inj_succ, Z.pow_succ_r by lia. ring.
Qed.

Lemma digits_val_app a b :
  digits_val (a ++ b) = digits_val a * 10 ^ Z.of_nat (String.length b) + digits_val b.
Proof.
  unfold digits_val at 1. rewrite digits_val_acc_app, digits_val_acc_shift. reflexivity.
Qed.


Lemma span_digits_app ds rest :
  all_digits ds = true -> ends_number rest = true ->
  span_digits (ds ++ rest) = (ds, rest).
Proof.
  intros Hd Hr. induction ds as [|c ds IH]; simpl.
  - destruct rest as [|c r]; [reflexivity|]. simpl in *.
    destruct (is_digit c); [discriminate | reflexivity].
  - simpl in Hd. apply andb_true_iff in Hd as [Hc Hds].
    rewrite Hc, (IH Hds). reflexivity.
Qed.


Lemma pow2_div10 n f : 0 <= n < 2 ^ (Z.of_nat (S f) + 1) -> 0 <= n / 10 < 2 ^ (Z.of_nat f + 1).
Proof.
  intros [H0 H1]. split; [apply Z.div_pos; lia|].
  apply Z.div_lt_upper_bound; [lia|].
  rewrite Nat2Z.inj_succ in H1.
  replace (Z.succ (Z.of_nat f) + 1) with (Z.succ (Z.of_nat f + 1)) in H1 by lia.
  rewrite Z.pow_succ_r in H1 by lia.
  assert (0 < 2 ^ (Z.of_nat f + 1)) by (apply Z.pow_pos_nonneg; lia). lia.
Qed.

Lemma digits_fuel_spec fuel n :
  0 <= n < 2 ^ (Z.of_nat fuel + 1) ->
  all_digits (digits_fuel fuel n) = true /\
  digits_val (digits_fuel fuel n) = n /\
  (exists c tl, digits_fuel fuel n = String c tl /\ (0 < n -> c <> "0"%char)) /\
  (n = 0 -> digits_fuel fuel n = "0").
Proof.
  revert n. induction fuel as [|f IH]; intros n Hn.
  - simpl in *. assert (Hd : 0 <= n < 10) by lia.
    destruct (digit_cases n Hd) as (H1 & H2 & H3).
    repeat split.
    + now rewrite H1.
    + unfold digits_val. simpl. rewrite H2. lia.
    + eexists _, _. split; [reflexivity|]. intros Hp. apply H3. lia.
    + intros ->. reflexivity.
  - cbn [digits_fuel]. destruct (Z.ltb_spec n 10) as [Hlt|Hge].
    + assert (Hd : 0 <= n < 10) by lia.
      destruct (digit_cases n Hd) as (H1 & H2 & H3).
      repeat split.
      * simpl. now rewrite H1.
      * unfold digits_val. simpl. rewrite H2. lia.
      * eexists _, _. split; [reflexivity|]. intros Hp. apply H3. lia.
      * intros ->. reflexivity.
    + destruct (IH (n / 10) (pow2_div10 n f Hn)) as (A1 & A2 & (c & tl & A3 & A4) & _).
      assert (Hm : 0 <= n mod 10 < 10) by (apply Z.mod_pos_bound; lia).
      destruct (digit_cases _ Hm) as (H1 & H2 & _).
      repeat split.
      * rewrite all_digits_app, A1. simpl. now rewrite H1.
      * rewrite digits_val_app, A2. unfold digits_val. simpl. rewrite H2.
        pose proof (Z.div_mod n 10). lia.
      * rewrite A3. simpl. eexists _, _. split; [reflexivity|].
        intros _. apply A4. apply Z.div_str_pos. lia.
      * intros ->. lia.
Qed.

Lemma nat_digits_spec n :
  0 <= n ->
  all_digits (nat_digits n) = true /\
  digits_val (nat_digits n) = n /\
  (exists c tl, nat_digits n = String c tl /\ (0 < n -> c <> "0"%char)) /\
  (n = 0 -> nat_digits n = "0").
Proof.
  intros Hn. apply digits_fuel_spec. split; [assumption|].
  rewrite Z2Nat.id by apply Z.log2_nonneg.
  destruct (Z.eq_dec n 0) as [->|Hne]; [reflexivity|].
  replace (Z.log2 n + 1) with (Z.succ (Z.log2 n)) by lia.
  apply Z.log2_spec. lia.
Qed.

(** ** Scanning a number *)












(** ** Normal forms of floats *)

Lemma strip_zeros_stop fuel n e : n mod 10 <> 0 -> strip_zeros fuel n e = mkfloat n e.
Proof.
  intros H. destruct fuel; simpl; [reflexivity|].
  destruct (Z.eqb_spec (n mod 10) 0); [contradiction | reflexivity].
Qed.

Lemma strip_zeros_pow j fuel n e :
  n mod 10 <> 0 -> (j <= fuel)%nat ->
  strip_zeros fuel (n * 10 ^ Z.of_nat j) e = mkfloat n (e + Z.of_nat j).
Proof.
  intros Hn. revert fuel e. induction j as [|j IH]; intros fuel e Hj.
  - simpl. rewrite Z.mul_1_r, Z.add_0_r. now apply strip_zeros_stop.
  - destruct fuel as [|fuel]; [lia|].
    rewrite Nat2Z.inj_succ, Z.pow_succ_r by lia. cbn [strip_zeros].
    replace (n * (10 * 10 ^ Z.of_nat j)) with (n * 10 ^ Z.of_nat j * 10) by ring.
    rewrite Z.mod_mul, Z.div_mul by lia. simpl.
    rewrite IH by lia. f_equal. lia.
Qed.

Lemma strip_zeros_normalized fuel n e :
  n <> 0 -> Z.abs n < 2 ^ (Z.of_nat fuel + 1) ->
  normalized (strip_zeros fuel n e) = true.
Proof.
  revert n e. induction fuel as [|f IH]; intros n e Hn Hb.
  - simpl in *. unfold normalized. simpl.
    assert (n = 1 \/ n = -1) as [-> | ->] by lia; reflexivity.
  - cbn [strip_zeros]. destruct (Z.eqb_spec (n mod 10) 0) as [Hz|Hnz].
    + apply IH.
      * intros H0. pose proof (Z.div_mod n 10). lia.
      * rewrite Nat2Z.inj_succ in Hb.
        replace (Z.succ (Z.of_nat f) + 1) with (Z.succ (Z.of_nat f + 1)) in Hb by lia.
        rewrite Z.pow_succ_r in Hb by lia.
        pose proof (Z.div_mod n 10). lia.
    + unfold normalized. simpl.
      destruct (Z.eqb_spec n 0); [contradiction|].
      destruct (Z.eqb_spec (n mod 10) 0); [contradiction | reflexivity].
Qed.

Lemma normalize_normalized n e : normalized (normalize n e) = true.
Proof.
  unfold normalize. destruct (Z.eqb_spec n 0) as [->|Hn]; [reflexivity|].
  apply strip_zeros_normalized; [assumption|].
  rewrite Z2Nat.id by apply Z.log2_nonneg.
  replace (Z.log2 (Z.abs n) + 1) with (Z.succ (Z.log2 (Z.abs n))) by lia.
  apply Z.log2_spec. lia.
Qed.

Lemma normalized_cases n e :
  normalized (mkfloat n e) = true -> (n = 0 /\ e = 0) \/ (n <> 0 /\ n mod 10 <> 0).
Proof.
  unfold normalized. simpl. destruct (Z.eqb_spec n 0) as [->|Hn].
  - intros H. apply Z.eqb_eq in H. now left.
  - destruct (Z.eqb_spec (n mod 10) 0); [discriminate | now right].
Qed.

(** A float written with [j] more zeros on its mantissa is the same
    float. *)
Lemma normalize_scaled n e j :
  normalized (mkfloat n e) = true -> 0 <= j ->
  normalize (n * 10 ^ j) (e - j) = mkfloat n e.
Proof.
  intros H Hj. destruct (normalized_cases n e H) as [[-> ->]|[Hn Hm]].
  - reflexivity.
  - unfold normalize.
    assert (Hp : 0 < 10 ^ j) by (apply Z.pow_pos_nonneg; lia).
    destruct (Z.eqb_spec (n * 10 ^ j) 0) as [H0|_]; [nia|].
    rewrite <- (Z2Nat.id j) by assumption.
    rewrite strip_zeros_pow; [f_equal; lia | assumption |].
    rewrite Z2Nat.id by assumption.
    apply Z2Nat.inj_le; [assumption | apply Z.log2_nonneg |].
    rewrite <- (Z.log2_pow2 j) at 1 by assumption.
    apply Z.log2_le_mono. rewrite Z.abs_mul, (Z.abs_eq (10 ^ j)) by lia.
    assert (2 ^ j <= 10 ^ j) by (apply Z.pow_le_mono_l; lia). nia.
Qed.

Lemma normalize_id n e : normalized (mkfloat n e) = true -> normalize n e = mkfloat n e.
Proof.
  intros H. pose proof (normalize_scaled n e 0 H (Z.le_refl 0)) as G.
  now rewrite Z.mul_1_r, Z.sub_0_r in G.
Qed.

Lemma float_literal_normalized neg ip fp x : normalized (float_literal neg ip fp x) = true.
Proof. apply normalize_normalized. Qed.

(** ** Scanning a float *)




Lemma string_take_cons n c s : string_take (S n) (String c s) = String c (string_take n s).
Proof. reflexivity. Qed.



(** ** Scanning a string *)

Ltac each_char c := destruct c as [[|] [|] [|] [|] [|] [|] [|] [|]].





Lemma non_ascii_app a b : non_ascii (a ++ b) = non_ascii a ++ non_ascii b.
Proof.
  induction a as [|c a IH]; simpl; [reflexivity|].
  destruct (128 <=? ord c)%N; simpl; now rewrite IH.
Qed.


(** ** White space and first characters *)









(** ** Scanning a value *)

(** Induction on a value, with the hypothesis for every element of a list
    and every member of a dict. *)
Fixpoint pyval_induction (P : pyval -> Prop)
    (HNone : P PNone) (HBool : forall b, P (PBool b)) (HInt : forall z, P (PInt z))
    (HFloat : forall f, P (PFloat f)) (HStr : forall s, P (PStr s))
    (HList : forall l, Forall P l -> P (PList l))
    (HDict : forall d, Forall (fun kv => P (snd kv)) d -> P (PDict d))
    (v : pyval) {struct v} : P v :=
  match v with
  | PNone => HNone
  | PBool b => HBool b
  | PInt z => HInt z
  | PFloat f => HFloat f
  | PStr s => HStr s
  | PList l =>
      HList l
        ((fix go (l : list pyval) : Forall P l :=
            match l with
            | [] => @List.Forall_nil _ P
            | x :: l' =>
                @List.Forall_cons _ P x l'
                  (pyval_induction P HNone HBool HInt HFloat HStr HList HDict x) (go l')
            end) l)
  | PDict d =>
      HDict d
        ((fix go (d : list (string * pyval)) : Forall (fun kv => P (snd kv)) d :=
            match d with
            | [] => @List.Forall_nil _ _
            | kv :: d' =>
                @List.Forall_cons _ (fun kv => P (snd kv)) kv d'
                  (pyval_induction P HNone HBool HInt HFloat HStr HList HDict (snd kv))
                  (go d')
            end) d)
  end.

Lemma encode_list lvl x l :
  encode lvl (PList (x :: l)) =
  "[" ++ newline_indent (S lvl) ++ encode_elems (S lvl) (x :: l) ++ newline_indent lvl ++ "]".
Proof. reflexivity. Qed.

Lemma encode_dict lvl kv d :
  encode lvl (PDict (kv :: d)) =
  "{" ++ newline_indent (S lvl) ++ encode_members (S lvl) (kv :: d) ++ newline_indent lvl ++ "}".
Proof. reflexivity. Qed.

Lemma encode_elems_cons lvl x y l :
  encode_elems lvl (x :: y :: l) =
  encode lvl x ++ "," ++ newline_indent lvl ++ encode_elems lvl (y :: l).
Proof. unfold encode_elems. cbn [map String.concat]. now rewrite append_assoc. Qed.

Lemma encode_members_cons lvl kv kv' d :
  encode_members lvl (kv :: kv' :: d) =
  encode_member lvl kv ++ "," ++ newline_indent lvl ++ encode_members lvl (kv' :: d).
Proof. unfold encode_members. cbn [map String.concat]. now rewrite append_assoc. Qed.















Lemma String_inj c a b : String c a = String c b -> a = b.
Proof. now intros [=]. Qed.



(** ** Dicts with distinct keys *)

Lemma existsb_eqb_false k ks :
  existsb (String.eqb k) ks = false <-> ~ In k ks.
Proof.
  induction ks as [|x ks IH]; simpl; [tauto|].
  rewrite orb_false_iff, IH. destruct (String.eqb_spec k x) as [->|Hne].
  - split; [intros [H _]; discriminate | intros H; exfalso; apply H; now left].
  - split; [intros [_ H] [E|E]; [congruence | contradiction] | intros H; split; [reflexivity|tauto]].
Qed.



Lemma wf_list_forall l : wf_pyval (PList l) = forallb wf_pyval l.
Proof. reflexivity. Qed.

(** ** The round trip of a value *)


(** ** Fuel *)







(** ** What [json.loads] builds is well formed *)

Lemma in_dict_set_keys d k v k' :
  In k' (map fst (dict_set d k v)) <-> k' = k \/ In k' (map fst d).
Proof.
  induction d as [|[k1 v1] d IH]; simpl.
  - split; [intros [H|[]]; now left | intros [H|[]]; now left].
  - destruct (String.eqb_spec k1 k) as [->|Hne]; simpl.
    + intuition (subst; auto).
    + rewrite IH. intuition (subst; auto).
Qed.

Lemma distinct_dict_set d k v :
  distinct (map fst d) = true -> distinct (map fst (dict_set d k v)) = true.
Proof.
  induction d as [|[k1 v1] d IH]; simpl; intros H; [reflexivity|].
  apply andb_true_iff in H as [H1 H2].
  destruct (String.eqb_spec k1 k) as [->|Hne]; simpl.
  - now rewrite H1, H2.
  - rewrite (IH H2), andb_true_r. apply negb_true_iff, existsb_eqb_false.
    apply negb_true_iff, existsb_eqb_false in H1.
    rewrite in_dict_set_keys. intros [E|E]; [congruence | contradiction].
Qed.

Lemma values_dict_set (P : pyval -> bool) d k v :
  forallb (fun kv => match kv with (_, x) => P x end) d = true -> P v = true ->
  forallb (fun kv => match kv with (_, x) => P x end) (dict_set d k v) = true.
Proof.
  induction d as [|[k1 v1] d IH]; simpl; intros H Hv; [now rewrite Hv|].
  apply andb_true_iff in H as [H1 H2].
  destruct (String.eqb k1 k); simpl.
  - now rewrite Hv, H2.
  - now rewrite H1, IH.
Qed.

Lemma dict_of_pairs_wf ps :
  forallb (fun kv => match kv with (_, x) => wf_pyval x end) ps = true ->
  wf_pyval (PDict (dict_of_pairs ps)) = true.
Proof.
  unfold dict_of_pairs. cbn [wf_pyval].
  assert (G : forall acc,
             distinct (map fst acc) = true ->
             forallb (fun kv => match kv with (_, x) => wf_pyval x end) acc = true ->
             forallb (fun kv => match kv with (_, x) => wf_pyval x end) ps = true ->
             let d := fold_left (fun a kv => dict_set a (fst kv) (snd kv)) ps acc in
             distinct (map fst d) = true /\
             forallb (fun kv => match kv with (_, x) => wf_pyval x end) d = true).
  { induction ps as [|[k v] ps IH]; intros acc Hd Hacc Hps; simpl; [now split|].
    simpl in Hps. apply andb_true_iff in Hps as [Hv Hps].
    apply IH; [now apply distinct_dict_set | now apply values_dict_set | assumption]. }
  intros Hps. destruct (G [] eq_refl eq_refl Hps) as [H1 H2].
  now rewrite H1, H2.
Qed.

Lemma scan_number_wf s v rest : scan_number s = Some (v, rest) -> wf_pyval v = true.
Proof.
  assert (G : forall neg s1, scan_unsigned neg s1 = Some (v, rest) -> wf_pyval v = true).
  { intros neg s1. unfold scan_unsigned. destruct s1 as [|c r]; [discriminate|].
    destruct (is_digit c); [|discriminate].
    destruct (if (c =? "0")%char then _ else _) as [ip t].
    destruct (scan_fraction t) as [fp t1]. destruct (scan_exponent t1) as [ex t2].
    destruct fp, ex; intros [= <- _]; try reflexivity; apply float_literal_normalized. }
  unfold scan_number. destruct s as [|c r]; [discriminate|].
  destruct (c =? "-")%char; apply G.
Qed.

Lemma scan_wf fuel :
  (forall s v rest, scan_value fuel s = Parsed v rest -> wf_pyval v = true) /\
  (forall s vs rest, scan_elems fuel s = Parsed vs rest -> forallb wf_pyval vs = true) /\
  (forall s ps rest, scan_members fuel s = Parsed ps rest ->
     forallb (fun kv => match kv with (_, x) => wf_pyval x end) ps = true).
Proof.
  induction fuel as [|f (IHv & IHe & IHm)]; [repeat split; discriminate|].
  split; [|split].
  - intros s v rest H. cbn [scan_value] in H. destruct s as [|c r]; [discriminate|].
    destruct (c =? dquote)%char.
    { destruct (scanstring r) as [[str t]|]; [|discriminate]. now injection H as <- _. }
    destruct (c =? "{")%char.
    { destruct (skip_ws r) as [|c1 r1]; [discriminate|].
      destruct (c1 =? "}")%char; [now injection H as <- _|].
      destruct (c1 =? dquote)%char; [|discriminate].
      destruct (scan_members f r1) as [ps t| |] eqn:E; try discriminate.
      cbn [rescan] in H. injection H as <- _.
      apply dict_of_pairs_wf. exact (IHm _ _ _ E). }
    destruct (c =? "[")%char.
    { destruct (skip_ws r) as [|c1 r1]; [discriminate|].
      destruct (c1 =? "]")%char; [now injection H as <- _|].
      destruct (scan_elems f (String c1 r1)) as [vs t| |] eqn:E; try discriminate.
      cbn [rescan] in H. injection H as <- _. exact (IHe _ _ _ E). }
    destruct (c =? "n")%char.
    { destruct (strip_prefix "ull" r); [now injection H as <- _ | discriminate]. }
    destruct (c =? "t")%char.
    { destruct (strip_prefix "rue" r); [now injection H as <- _ | discriminate]. }
    destruct (c =? "f")%char.
    { destruct (strip_prefix "alse" r); [now injection H as <- _ | discriminate]. }
    destruct (scan_number (String c r)) as [[x t]|] eqn:E; [|discriminate].
    injection H as <- _. exact (scan_number_wf _ _ _ E).
  - intros s vs rest H. cbn [scan_elems] in H.
    destruct (scan_value f s) as [v t| |] eqn:E; try discriminate.
    cbn [rescan] in H. destruct (skip_ws t) as [|c r]; [discriminate|].
    destruct (c =? "]")%char.
    { injection H as <- _. simpl. now rewrite (IHv _ _ _ E). }
    destruct (c =? ",")%char; [|discriminate].
    destruct (scan_elems f (skip_ws r)) as [vs' t'| |] eqn:E'; try discriminate.
    cbn [rescan] in H. injection H as <- _. simpl.
    now rewrite (IHv _ _ _ E), (IHe _ _ _ E').
  - intros s ps rest H. cbn [scan_members] in H.
    destruct (scanstring s) as [[key t]|]; [|discriminate].
    destruct (skip_ws t) as [|c r]; [discriminate|].
    destruct (c =? ":")%char; [|discriminate].
    destruct (scan_value f (skip_ws r)) as [v t1| |] eqn:E; try discriminate.
    cbn [rescan] in H. destruct (skip_ws t1) as [|c1 r1]; [discriminate|].
    destruct (c1 =? "}")%char.
    { injection H as <- _. simpl. now rewrite (IHv _ _ _ E). }
    destruct (c1 =? ",")%char; [|discriminate].
    destruct (skip_ws r1) as [|c2 r2]; [discriminate|].
    destruct (c2 =? dquote)%char; [|discriminate].
    destruct (scan_members f r2) as [ps' t'| |] eqn:E'; try discriminate.
    cbn [rescan] in H. injection H as <- _. simpl.
    now rewrite (IHv _ _ _ E), (IHm _ _ _ E').
Qed.

Lemma json_loads_wf s v : json_loads s = Some v -> wf_pyval v = true.
Proof.
  unfold json_loads.
  destruct (scan_value _ _) as [x t| |] eqn:E; try discriminate.
  destruct (skip_ws t); [|discriminate]. intros [= <-].
  exact (proj1 (scan_wf _) _ _ _ E).
Qed.

(** ** The fuel of [json.loads] is enough *)

Lemma length_skip_ws s : (String.length (skip_ws s) <= String.length s)%nat.
Proof.
  induction s as [|c s IH]; simpl; [lia|]. destruct (is_json_ws c); simpl; lia.
Qed.

Lemma scanstring_shorter n :
  forall s x rest,
    (String.length s <= n)%nat -> scanstring s = Some (x, rest) ->
    (String.length rest < String.length s)%nat.
Proof.
  induction n as [|n IH]; intros s x rest Hn H.
  - destruct s; [discriminate | simpl in Hn; lia].
  - destruct s as [|c r]; [discriminate|]. cbn [scanstring] in H. unfold prepend in H.
    repeat match type of H with
           | context [if ?b then _ else _] => destruct b; try discriminate
           | context [match scanstring ?t with _ => _ end] =>
               let E := fresh "E" in
               destruct (scanstring t) as [[? ?]|] eqn:E; try discriminate;
               apply IH in E; [| simpl in *; lia]
           | context [match ?t with _ => _ end] => destruct t; try discriminate
           end;
      injection H as <- <-; simpl in *; lia.
Qed.

Lemma length_span_digits s :
  (String.length (snd (span_digits s)) <= String.length s)%nat.
Proof.
  induction s as [|c s IH]; simpl; [lia|].
  destruct (is_digit c); [|simpl; lia].
  destruct (span_digits s); simpl in *. lia.
Qed.

Lemma length_scan_fraction s :
  (String.length (snd (scan_fraction s)) <= String.length s)%nat.
Proof.
  unfold scan_fraction. destruct s as [|p [|d r]]; try (simpl; lia).
  destruct (_ && _); [|simpl; lia].
  pose proof (length_span_digits (String d r)).
  destruct (span_digits (String d r)); simpl in *. lia.
Qed.

Lemma length_read_sign s : (String.length (snd (read_sign s)) <= String.length s)%nat.
Proof.
  unfold read_sign. destruct s as [|c r]; [simpl; lia|].
  destruct (c =? "-")%char; [simpl; lia|]. destruct (c =? "+")%char; simpl; lia.
Qed.

Lemma length_scan_exponent s :
  (String.length (snd (scan_exponent s)) <= String.length s)%nat.
Proof.
  unfold scan_exponent. destruct s as [|e r]; [simpl; lia|].
  destruct (_ || _); [|simpl; lia].
  pose proof (length_read_sign r). destruct (read_sign r) as [eneg r1].
  pose proof (length_span_digits r1). destruct (span_digits r1) as [[|d ds] t];
    simpl in *; lia.
Qed.

Lemma scan_unsigned_shorter neg s v rest :
  scan_unsigned neg s = Some (v, rest) -> (String.length rest < String.length s)%nat.
Proof.
  unfold scan_unsigned. destruct s as [|c r]; [discriminate|].
  destruct (is_digit c) eqn:Hc; [|discriminate].
  assert (G : forall ip t,
            (if (c =? "0")%char then (String c "", r) else span_digits (String c r)) = (ip, t) ->
            (String.length t <= String.length r)%nat).
  { intros ip t. destruct (c =? "0")%char.
    - intros [= _ <-]. lia.
    - intros E. pose proof (length_span_digits (String c r)) as L. rewrite E in L.
      cbn [span_digits] in E. rewrite Hc in E.
      pose proof (length_span_digits r) as L'. destruct (span_digits r).
      injection E as _ <-. exact L'. }
  destruct (if (c =? "0")%char then _ else _) as [ip t] eqn:E.
  specialize (G ip t eq_refl).
  pose proof (length_scan_fraction t). destruct (scan_fraction t) as [fp t1].
  pose proof (length_scan_exponent t1). destruct (scan_exponent t1) as [ex t2].
  destruct fp, ex; intros [= _ <-]; simpl in *; lia.
Qed.

Lemma scan_number_shorter s v rest :
  scan_number s = Some (v, rest) -> (String.length rest < String.length s)%nat.
Proof.
  unfold scan_number. destruct s as [|c r]; [discriminate|].
  destruct (c =? "-")%char; intros H; apply scan_unsigned_shorter in H; simpl in *; lia.
Qed.

Lemma length_strip_prefix p s rest :
  strip_prefix p s = Some rest -> (String.length rest <= String.length s)%nat.
Proof.
  revert s. induction p as [|a p IH]; intros s; simpl.
  - intros [= <-]. lia.
  - destruct s as [|b s]; [discriminate|]. destruct (a =? b)%char; [|discriminate].
    intros H. apply IH in H. simpl. lia.
Qed.

Lemma scan_fuel fuel :
  (forall s, (2 * String.length s + 1 <= fuel)%nat ->
             ends_well (scan_value fuel s) (String.length s)) /\
  (forall s, (2 * String.length s + 2 <= fuel)%nat ->
             ends_well (scan_elems fuel s) (String.length s)) /\
  (forall s, (2 * String.length s + 1 <= fuel)%nat ->
             ends_well (scan_members fuel s) (String.length s)).
Proof.
  induction fuel as [|f (IHv & IHe & IHm)]; [repeat split; intros s H; lia|].
  split; [|split]; intros s Hf.
  - cbn [scan_value]. destruct s as [|c r]; [exact I|]. cbn [String.length] in *.
    destruct (c =? dquote)%char.
    { destruct (scanstring r) as [[str t]|] eqn:E; [|exact I].
      apply (scanstring_shorter _ _ _ _ (Nat.le_refl _)) in E. simpl. lia. }
    destruct (c =? "{")%char.
    { pose proof (length_skip_ws r) as L. destruct (skip_ws r) as [|c1 r1]; [exact I|].
      cbn [String.length] in L.
      destruct (c1 =? "}")%char; [simpl; lia|].
      destruct (c1 =? dquote)%char; [|exact I].
      specialize (IHm r1 ltac:(lia)).
      destruct (scan_members f r1); simpl in *; [lia | exact I | exact IHm]. }
    destruct (c =? "[")%char.
    { pose proof (length_skip_ws r) as L. destruct (skip_ws r) as [|c1 r1]; [exact I|].
      destruct (c1 =? "]")%char; [cbn [String.length] in L; simpl; lia|].
      specialize (IHe (String c1 r1) ltac:(lia)).
      destruct (scan_elems f (String c1 r1)); simpl in *; [lia | exact I | exact IHe]. }
    destruct (c =? "n")%char.
    { destruct (strip_prefix "ull" r) eqn:E; [|exact I].
      apply length_strip_prefix in E. simpl. lia. }
    destruct (c =? "t")%char.
    { destruct (strip_prefix "rue" r) eqn:E; [|exact I].
      apply length_strip_prefix in E. simpl. lia. }
    destruct (c =? "f")%char.
    { destruct (strip_prefix "alse" r) eqn:E; [|exact I].
      apply length_strip_prefix in E. simpl. lia. }
    destruct (scan_number (String c r)) as [[x t]|] eqn:E; [|exact I].
    apply scan_number_shorter in E. simpl in *. lia.
  - cbn [scan_elems]. specialize (IHv s ltac:(lia)).
    destruct (scan_value f s) as [v t| |]; [|exact I | exact IHv].
    cbn [rescan]. simpl in IHv.
    pose proof (length_skip_ws t) as L. destruct (skip_ws t) as [|c r]; [exact I|].
    cbn [String.length] in L.
    destruct (c =? "]")%char; [simpl; lia|].
    destruct (c =? ",")%char; [|exact I].
    pose proof (length_skip_ws r) as L'.
    specialize (IHe (skip_ws r) ltac:(lia)).
    destruct (scan_elems f (skip_ws r)); simpl in *; [lia | exact I | exact IHe].
  - cbn [scan_members].
    destruct (scanstring s) as [[key t]|] eqn:E; [|exact I].
    apply (scanstring_shorter _ _ _ _ (Nat.le_refl _)) in E.
    pose proof (length_skip_ws t) as L. destruct (skip_ws t) as [|c r]; [exact I|].
    cbn [String.length] in L.
    destruct (c =? ":")%char; [|exact I].
    pose proof (length_skip_ws r) as L'.
    specialize (IHv (skip_ws r) ltac:(lia)).
    destruct (scan_value f (skip_ws r)) as [v t1| |]; [|exact I | exact IHv].
    cbn [rescan]. simpl in IHv.
    pose proof (length_skip_ws t1) as L1. destruct (skip_ws t1) as [|c1 r1]; [exact I|].
    cbn [String.length] in L1.
    destruct (c1 =? "}")%char; [simpl; lia|].
    destruct (c1 =? ",")%char; [|exact I].
    pose proof (length_skip_ws r1) as L2. destruct (skip_ws r1) as [|c2 r2]; [exact I|].
    cbn [String.length] in L2.
    destruct (c2 =? dquote)%char; [|exact I].
    specialize (IHm r2 ltac:(lia)).
    destruct (scan_members f r2); simpl in *; [lia | exact I | exact IHm].
Qed.

(** [json.loads] never rejects a text for want of fuel. *)
Lemma json_loads_fuel s :
  scan_value (2 * String.length s + 1) (skip_ws s) <> OutOfFuel.
Proof.
  pose proof (length_skip_ws s) as L.
  pose proof (proj1 (scan_fuel (2 * String.length s + 1)) (skip_ws s) ltac:(lia)) as H.
  intros E. rewrite E in H. exact H.
Qed.

(** ** The records of the scraper are well formed *)

Lemma dict_get_wf d k v :
  wf_pyval (PDict d) = true -> dict_get d k = Some v -> wf_pyval v = true.
Proof.
  cbn [wf_pyval]. intros H. apply andb_true_iff in H as [_ H].
  induction d as [|[k1 v1] d IH]; simpl in *; [discriminate|].
  apply andb_true_iff in H as [H1 H2].
  destruct (String.eqb k1 k); [now intros [= <-] | now apply IH].
Qed.

Lemma getitem_wf obj sub v :
  wf_pyval obj = true -> getitem obj sub = Ok v -> wf_pyval v = true.
Proof.
  intros Hwf. destruct obj as [| | | |s|l|d], sub as [k|i]; simpl; try discriminate.
  - destruct (nth_error (utf8_chars s) i); [now intros [= <-] | discriminate].
  - destruct (nth_error l i) as [x|] eqn:E; [|discriminate]. intros [= <-].
    cbn [wf_pyval] in Hwf. rewrite forallb_forall in Hwf.
    apply Hwf. eapply nth_error_In, E.
  - destruct (dict_get d k) as [x|] eqn:E; [|discriminate]. intros [= <-].
    eapply dict_get_wf; eassumption.
Qed.

Lemma read_exponent_normalized neg ip fp s f :
  read_exponent neg ip fp s = Some f -> normalized f = true.
Proof.
  unfold read_exponent. destruct s as [|c r].
  - intros [= <-]. apply float_literal_normalized.
  - destruct ((c =? "e") || (c =? "E"))%char; [|discriminate].
    destruct (read_sign r) as [eneg r1].
    destruct (digitpart r1) as [[ds [|]]|]; try discriminate.
    intros [= <-]. apply float_literal_normalized.
Qed.

Lemma float_of_str_normalized s f : float_of_str s = Some f -> normalized f = true.
Proof.
  unfold float_of_str. destruct (read_sign (strip s)) as [neg s1].
  destruct (digitpart s1) as [[ip [|c r]]|].
  - apply read_exponent_normalized.
  - destruct (c =? ".")%char.
    + destruct (digitpart r) as [[fp r']|]; apply read_exponent_normalized.
    + apply read_exponent_normalized.
  - destruct s1 as [|c r]; [discriminate|].
    destruct (c =? ".")%char; [|discriminate].
    destruct (digitpart r) as [[fp r']|]; [apply read_exponent_normalized | discriminate].
Qed.

Lemma py_float_normalized x f :
  wf_pyval x = true -> py_float x = Ok f -> normalized f = true.
Proof.
  intros Hwf. destruct x as [|b|z|g|s|l|d]; simpl; try discriminate.
  - intros [= <-]. apply normalize_normalized.
  - intros [= <-]. apply normalize_normalized.
  - now intros [= <-].
  - destruct (float_of_str s) eqn:E; [|discriminate]. intros [= <-].
    eapply float_of_str_normalized, E.
Qed.

Lemma lift_ok {A} (r : result A) st a st' : lift r st = (Ok a, st') -> r = Ok a.
Proof. unfold lift. now intros [= -> _]. Qed.

Lemma response_json_ok response st data st' :
  response_json response st = (Ok data, st') -> json_loads (snd response) = Some data.
Proof.
  unfold response_json. destruct (json_loads _); [|discriminate].
  unfold ret. now intros [= -> _].
Qed.

(** Every record the fetcher returns is well formed. *)
Lemma fetch_result_wf w city r : fetch_result w city = Ok (Some r) -> wf_record r = true.
Proof.
  unfold fetch_result.
  destruct (_fetch_city_temperature w city blank) as [res st'] eqn:E.
  simpl. intros ->. unfold _fetch_city_temperature, try_except in E.
  match type of E with
  | context [match ?body blank with _ => _ end] =>
      destruct (body blank) as [[o|e] s1] eqn:Hb
  end.
  - injection E as -> _.
    apply bind_ok in Hb. destruct Hb as (response & s2 & _ & Hb).
    apply bind_ok in Hb. destruct Hb as (? & s3 & _ & Hb).
    apply bind_ok in Hb. destruct Hb as (data & s4 & Hdata & Hb).
    apply response_json_ok, json_loads_wf in Hdata.
    repeat match type of Hb with
           | bind (lift (getitem _ _)) _ _ = _ =>
               let x := fresh "x" in
               let H := fresh "H" in
               apply bind_ok in Hb; destruct Hb as (x & ? & H & Hb);
               apply lift_ok in H; apply getitem_wf in H; [|assumption]
           end.
    repeat match type of Hb with
           | bind (lift _) _ _ = _ =>
               let x := fresh "x" in
               let H := fresh "H" in
               apply bind_ok in Hb; destruct Hb as (x & ? & H & Hb);
               apply lift_ok in H
           end.
    injection Hb as <- _. unfold wf_record. cbn.
    repeat match goal with
           | H : py_float _ = Ok _ |- _ => apply py_float_normalized in H; [|assumption]
           end.
    repeat (apply andb_true_iff; split); assumption.
  - destruct e; simpl in E; discriminate.
Qed.

Lemma collected_wf w cs : forallb wf_record (collected w cs) = true.
Proof.
  unfold collected. induction cs as [|c cs IH]; simpl; [reflexivity|].
  rewrite forallb_app, IH, andb_true_r. unfold gathered.
  destruct (fetch_result w c) as [[r|]|e] eqn:E; try reflexivity.
  simpl. now rewrite (fetch_result_wf _ _ _ E).
Qed.

Lemma display_summary_keeps_data st :
  temperature_data (snd (display_summary st)) = temperature_data st.
Proof.
  unfold display_summary, bind, gets. destruct (temperature_data st) eqn:E; simpl; now rewrite E.
Qed.

(** In every state a scraper goes through, the records held are well
    formed. *)
Lemma reachable_wf st : reachable st -> wf_state st = true.
Proof.
  unfold wf_state. induction 1 as [| w st _ IH | now st _ IH | now st _ IH | st _ IH].
  - reflexivity.
  - rewrite scrape_run. simpl. now rewrite forallb_app, IH, collected_wf.
  - now rewrite save_to_csv_keeps_data.
  - now rewrite save_to_json_keeps_data.
  - now rewrite display_summary_keeps_data.
Qed.


(** ** Bytes that are not ASCII *)

Lemma digits_ascii s : all_digits s = true -> non_ascii s = "".
Proof.
  induction s as [|c s IH]; [reflexivity|]. cbn [all_digits non_ascii].
  intros H. apply andb_true_iff in H as [Hc Hs].
  assert (E : (128 <=? ord c)%N = false) by (each_char c; try discriminate Hc; reflexivity).
  rewrite E. now apply IH.
Qed.

Lemma nat_digits_nonneg_ascii n : 0 <= n -> non_ascii (nat_digits n) = "".
Proof. intros H. apply digits_ascii. now apply nat_digits_spec. Qed.

Lemma nat_digits_ascii n : non_ascii (nat_digits (Z.abs n)) = "".
Proof. apply nat_digits_nonneg_ascii, Z.abs_nonneg. Qed.

Lemma zeros_ascii k : non_ascii (zeros k) = "".
Proof. apply digits_ascii, all_digits_zeros. Qed.

Lemma spaces_ascii k : non_ascii (spaces k) = "".
Proof. induction k; [reflexivity | exact IHk]. Qed.

Lemma newline_indent_ascii lvl : non_ascii (newline_indent lvl) = "".
Proof. unfold newline_indent. cbn [non_ascii]. apply spaces_ascii. Qed.

Lemma int_repr_ascii z : non_ascii (int_repr z) = "".
Proof.
  unfold int_repr. destruct (Z.ltb_spec z 0).
  - cbn [non_ascii]. apply nat_digits_nonneg_ascii. lia.
  - now apply nat_digits_nonneg_ascii.
Qed.

Lemma exponent_repr_ascii x : non_ascii (exponent_repr x) = "".
Proof.
  unfold exponent_repr.
  assert (H : non_ascii (if Z.abs x <? 10 then String "0" (nat_digits (Z.abs x))
                         else nat_digits (Z.abs x)) = "").
  { destruct (Z.abs x <? 10); [cbn [non_ascii]|]; apply nat_digits_ascii. }
  destruct (x <? 0); cbn [non_ascii]; exact H.
Qed.

Lemma ascii_app a b : non_ascii a = "" -> non_ascii b = "" -> non_ascii (a ++ b) = "".
Proof. intros Ha Hb. now rewrite non_ascii_app, Ha, Hb. Qed.

Lemma ascii_digit_cons d s : is_digit d = true -> non_ascii s = "" -> non_ascii (String d s) = "".
Proof.
  intros Hd Hs. cbn [non_ascii].
  assert (E : (128 <=? ord d)%N = false) by (each_char d; try discriminate Hd; reflexivity).
  now rewrite E.
Qed.

Lemma float_repr_ascii f : non_ascii (float_repr f) = "".
Proof.
  unfold float_repr.
  pose proof (nat_digits_spec _ (Z.abs_nonneg (mant f))) as (Hd & _).
  set (ds := nat_digits (Z.abs (mant f))) in *.
  apply ascii_app; [destruct (mant f <? 0); reflexivity|].
  destruct (_ || _).
  - destruct ds as [|d [|d' tl]] eqn:E; [reflexivity| |];
      cbn [all_digits] in Hd; apply andb_true_iff in Hd as [Hd Htl];
      (apply ascii_digit_cons; [exact Hd|]); cbn [non_ascii].
    + apply exponent_repr_ascii.
    + apply ascii_app; [now apply digits_ascii|]. cbn [non_ascii]. apply exponent_repr_ascii.
  - destruct (_ <=? 0).
    + cbn [append non_ascii]. apply ascii_app; [apply zeros_ascii | now apply digits_ascii].
    + destruct (_ <? _).
      * apply ascii_app; [apply digits_ascii; now apply all_digits_take|].
        cbn [non_ascii]. apply digits_ascii. now apply all_digits_drop.
      * apply ascii_app; [now apply digits_ascii|].
        apply ascii_app; [apply zeros_ascii | reflexivity].
Qed.






(** ** Texts that have a UTF-8 encoding *)

Lemma encodable_cons c s :
  surrogate_lead c = false -> encodable (String c s) = encodable s.
Proof. intros H. cbn [encodable]. now rewrite H. Qed.

Lemma ascii_cons c s :
  non_ascii (String c s) = "" -> surrogate_lead c = false /\ non_ascii s = "".
Proof.
  cbn [non_ascii]. destruct (128 <=? ord c)%N eqn:E; [discriminate|].
  intros H. split; [|exact H].
  each_char c; try discriminate E; reflexivity.
Qed.

(** A text of ASCII characters has an encoding, and so has what follows
    it if that has one. *)
Lemma encodable_ascii_app a t : non_ascii a = "" -> encodable (a ++ t) = encodable t.
Proof.
  induction a as [|c a IH]; intros H; [reflexivity|].
  apply ascii_cons in H as [Hc Ha]. cbn [append].
  rewrite (encodable_cons _ _ Hc). now apply IH.
Qed.

Lemma encodable_escape_char c u :
  encodable (escape_char c ++ u) = negb (surrogate_lead c && surrogate_next u) && encodable u.
Proof. each_char c; reflexivity. Qed.

Lemma surrogate_next_escape_char d u :
  surrogate_next (escape_char d ++ u) = surrogate_next (String d u).
Proof. each_char d; reflexivity. Qed.

Lemma surrogate_next_escape s t :
  surrogate_next t = false -> surrogate_next (escape s ++ t) = surrogate_next s.
Proof.
  intros Ht. destruct s as [|d s]; [exact Ht|].
  cbn [escape]. rewrite append_assoc, surrogate_next_escape_char. reflexivity.
Qed.

Lemma encodable_escape s t :
  surrogate_next t = false -> encodable (escape s ++ t) = encodable s && encodable t.
Proof.
  intros Ht. induction s as [|c s IH]; [reflexivity|].
  cbn [escape]. rewrite append_assoc, encodable_escape_char.
  rewrite (surrogate_next_escape s t Ht), IH. cbn [encodable]. now rewrite andb_assoc.
Qed.

(** A string between its quotes has an encoding when the string has one,
    whatever follows. *)
Lemma encodable_encode_str s t :
  encodable (encode_str s ++ t) = encodable s && encodable t.
Proof.
  unfold encode_str. cbn [append]. rewrite append_assoc. cbn [append].
  rewrite encodable_cons by reflexivity.
  rewrite encodable_escape by reflexivity.
  now rewrite encodable_cons by reflexivity.
Qed.

Lemma encodable_elems k x l t :
  Forall (fun v => forall lvl u,
            encodable (encode lvl v ++ u) = encodable_pyval v && encodable u) (x :: l) ->
  encodable (encode_elems k (x :: l) ++ t)
    = forallb encodable_pyval (x :: l) && encodable t.
Proof.
  revert x. induction l as [|y l IHl]; intros x IH; inversion IH as [|? ? Hx IH']; subst.
  - change (encode_elems k [x]) with (encode k x). rewrite Hx. cbn [forallb].
    now rewrite andb_true_r.
  - rewrite encode_elems_cons, !append_assoc, Hx.
    change ("," ++ newline_indent k ++ encode_elems k (y :: l) ++ t)
      with (String "," (newline_indent k ++ encode_elems k (y :: l) ++ t)).
    rewrite encodable_cons by reflexivity.
    rewrite encodable_ascii_app by apply newline_indent_ascii.
    rewrite (IHl y IH'). cbn [forallb]. now rewrite !andb_assoc.
Qed.

Lemma encodable_members j k x d t :
  Forall (fun kv => forall lvl u,
            encodable (encode lvl (snd kv) ++ u) = encodable_pyval (snd kv) && encodable u)
    ((k, x) :: d) ->
  encodable (encode_members j ((k, x) :: d) ++ t)
    = forallb (fun kv => match kv with (k, x) => encodable k && encodable_pyval x end)
        ((k, x) :: d)
      && encodable t.
Proof.
  assert (Hm : forall k x u,
             (forall lvl u, encodable (encode lvl x ++ u) = encodable_pyval x && encodable u) ->
             encodable (encode_member j (k, x) ++ u)
               = encodable k && encodable_pyval x && encodable u).
  { intros k0 x0 u Hx. unfold encode_member. rewrite !append_assoc, encodable_encode_str.
    change (": " ++ encode j x0 ++ u) with (String ":" (String " " (encode j x0 ++ u))).
    rewrite !encodable_cons by reflexivity. now rewrite Hx, andb_assoc. }
  revert k x. induction d as [|[k' x'] d IHd]; intros k x IH;
    inversion IH as [|? ? Hx IH']; subst; simpl in Hx.
  - change (encode_members j [(k, x)]) with (encode_member j (k, x)).
    rewrite (Hm k x t Hx). cbn [forallb]. now rewrite andb_true_r.
  - rewrite encode_members_cons, !append_assoc, (Hm k x _ Hx).
    change ("," ++ newline_indent j ++ encode_members j ((k', x') :: d) ++ t)
      with (String "," (newline_indent j ++ encode_members j ((k', x') :: d) ++ t)).
    rewrite encodable_cons by reflexivity.
    rewrite encodable_ascii_app by apply newline_indent_ascii.
    rewrite (IHd k' x' IH'). cbn [forallb]. now rewrite !andb_assoc.
Qed.

(** The text of a value has a UTF-8 encoding exactly when its strings
    and keys have one. *)
Lemma encodable_encode v :
  forall lvl t, encodable (encode lvl v ++ t) = encodable_pyval v && encodable t.
Proof.
  induction v as [| b | z | f | s | l IH | d IH] using pyval_induction; intros lvl t.
  - now apply encodable_ascii_app.
  - destruct b; now apply encodable_ascii_app.
  - apply encodable_ascii_app, int_repr_ascii.
  - apply encodable_ascii_app, float_repr_ascii.
  - apply encodable_encode_str.
  - destruct l as [|x l]; [now apply encodable_ascii_app|].
    rewrite encode_list, !append_assoc.
    change ("[" ++ newline_indent (S lvl) ++ encode_elems (S lvl) (x :: l)
              ++ newline_indent lvl ++ "]" ++ t)
      with (String "[" (newline_indent (S lvl) ++ encode_elems (S lvl) (x :: l)
              ++ newline_indent lvl ++ "]" ++ t)).
    rewrite encodable_cons by reflexivity.
    rewrite encodable_ascii_app by apply newline_indent_ascii.
    rewrite (encodable_elems _ _ _ _ IH).
    rewrite encodable_ascii_app by apply newline_indent_ascii.
    change ("]" ++ t) with (String "]" t). now rewrite encodable_cons by reflexivity.
  - destruct d as [|[k x] d]; [now apply encodable_ascii_app|].
    rewrite encode_dict, !append_assoc.
    change ("{" ++ newline_indent (S lvl) ++ encode_members (S lvl) ((k, x) :: d)
              ++ newline_indent lvl ++ "}" ++ t)
      with (String "{" (newline_indent (S lvl) ++ encode_members (S lvl) ((k, x) :: d)
              ++ newline_indent lvl ++ "}" ++ t)).
    rewrite encodable_cons by reflexivity.
    rewrite encodable_ascii_app by apply newline_indent_ascii.
    rewrite (encodable_members _ _ _ _ _ IH).
    rewrite encodable_ascii_app by apply newline_indent_ascii.
    change ("}" ++ t) with (String "}" t). now rewrite encodable_cons by reflexivity.
Qed.

Lemma encodable_json_dumps v : encodable (json_dumps v) = encodable_pyval v.
Proof.
  unfold json_dumps. rewrite <- (append_nil_r (encode 0 v)), encodable_encode.
  apply andb_true_r.
Qed.

(** The records as a Python value: its strings are those of the records
    and the seven keys. *)
Lemma as_pyval_encodable data :
  encodable_pyval (as_pyval data) = encodable_data data.
Proof.
  unfold as_pyval, encodable_data. cbn [encodable_pyval].
  induction data as [|r data IH]; [reflexivity|].
  cbn [map forallb]. rewrite IH. f_equal.
  unfold encodable_record, as_dict. cbn [encodable_pyval forallb].
  change (encodable "City") with true.
  change (encodable "Min Temp (°C)") with true.
  change (encodable "Max Temp (°C)") with true.
  change (encodable "Current Condition") with true.
  change (encodable "Humidity (%)") with true.
  change (encodable "Wind Speed (km/h)") with true.
  change (encodable "Fetched At") with true.
  cbn [andb]. now rewrite !andb_true_r, andb_assoc.
Qed.

(** ** The JSON export *)





(** ** What the exporters return *)




(** The same on a record with accents, a quote and a line break in its
    strings and a nested condition: the text holds the accented bytes
    unescaped and is read back as the record. *)
Example odd_strings_round_trip :
  let r := {| City := "Bhubanēśwar"; Min_Temp := mkfloat 215 (-1); Max_Temp := mkfloat 3 1;
              Current_Condition :=
                PList [PStr (String dquote "brume légère"); PDict [("à", PFloat (mkfloat 1 (-5)))];
                       PStr (String newline "x")];
              Humidity := -3; Wind_Speed := mkfloat 0 0; Fetched_At := "" |} in
  json_loads (json_dumps (as_pyval [r])) = Some (as_pyval [r]) /\
  non_ascii (json_dumps (as_pyval [r])) = "ēś°°éèà".
Proof. vm_compute. split; reflexivity. Qed.

(** * Further properties *)

(** ** The fetcher, path by path *)

Lemma quiet_ret {A} (a : A) : quiet (ret a).
Proof. exists (Ok a). reflexivity. Qed.

Lemma quiet_raise {A} e : quiet (@raise A e).
Proof. exists (Raise e). reflexivity. Qed.

Lemma quiet_lift {A} (r : result A) : quiet (lift r).
Proof. exists r. reflexivity. Qed.

Lemma quiet_bind {A B} (c : M A) (k : A -> M B) :
  quiet c -> (forall a, quiet (k a)) -> quiet (bind c k).
Proof.
  intros (r & Hc) Hk. destruct r as [a|e].
  - destruct (Hk a) as (r' & Hka). exists r'. intros st. unfold bind.
    now rewrite Hc, Hka.
  - exists (Raise e). intros st. unfold bind. now rewrite Hc.
Qed.

(** The fetcher is a [try] whose body prints nothing and, when it ends
    normally, hands back a record for the city asked, stamped with the
    reading of the clock. *)
Lemma fetch_split w city :
  exists body : M (option temperature_record),
    _fetch_city_temperature w city =
    try_except body
      [ ([cls_RequestException],
         fun e => print (MsgErrorFetching city e) ;; ret None);
        ([cls_KeyError; cls_JSONDecodeError],
         fun e => print (MsgErrorParsing city e) ;; ret None) ]%py /\
    quiet body /\
    forall st o st', body st = (Ok o, st') ->
      exists r, o = Some r /\ City r = city /\
                Fetched_At r = strftime_display (now_at w city).
Proof.
  eexists. split; [reflexivity|]. split.
  - repeat first
      [ apply quiet_ret | apply quiet_lift
      | apply quiet_bind; [| intros ?] ].
    + unfold requests_get. destruct (http_get w _);
        [apply quiet_raise | apply quiet_ret].
    + unfold raise_for_status. destruct (_ && _);
        [apply quiet_raise | apply quiet_ret].
    + unfold response_json. destruct (json_loads _);
        [apply quiet_ret | apply quiet_raise].
  - intros st o st' Hb.
    repeat (apply bind_ok in Hb; destruct Hb as (? & ? & _ & Hb)).
    injection Hb as <- _. eexists. repeat split.
Qed.

(** X1: every call of the fetcher ends in one of four ways, and which
    one depends only on the classes of the exception its [try] body
    raises, if any.  With no exception it returns a record for the city
    asked, stamped with the clock reading, and prints nothing.  An
    instance of [RequestException] gives [None] after one line reporting
    the failed request.  Another exception that is a [KeyError] or a
    [json.JSONDecodeError] gives [None] after one line reporting the
    parse failure.  An exception of none of the three classes leaves the
    call, with nothing printed.  Nothing of the scraper but standard
    output changes. *)
Theorem fetch_outcomes w city st :
  (exists r,
     _fetch_city_temperature w city st = (Ok (Some r), st) /\
     City r = city /\ Fetched_At r = strftime_display (now_at w city)) \/
  (exists e,
     isinstance e cls_RequestException = true /\
     _fetch_city_temperature w city st
       = (Ok None, extend [] [MsgErrorFetching city e] st)) \/
  (exists e,
     isinstance e cls_RequestException = false /\
     (isinstance e cls_KeyError || isinstance e cls_JSONDecodeError) = true /\
     _fetch_city_temperature w city st
       = (Ok None, extend [] [MsgErrorParsing city e] st)) \/
  (exists e,
     isinstance e cls_RequestException = false /\
     isinstance e cls_KeyError = false /\
     isinstance e cls_JSONDecodeError = false /\
     _fetch_city_temperature w city st = (Raise e, st)).
Proof.
  destruct (fetch_split w city) as (body & -> & (r & Hq) & Hok).
  unfold try_except. specialize (Hok st). rewrite Hq in *.
  destruct r as [o|e].
  - left. destruct (Hok o st eq_refl) as (r & -> & Hc & Ht). now exists r.
  - right. cbn [find_handler existsb].
    destruct (isinstance e cls_RequestException) eqn:E1; cbn [orb].
    + left. exists e. split; [exact E1|].
      unfold bind, print, ret, extend. simpl. now rewrite app_nil_r.
    + right. destruct (isinstance e cls_KeyError) eqn:E2; cbn [orb].
      * left. exists e. split; [exact E1|]. split; [now rewrite E2|].
        unfold bind, print, ret, extend. simpl. now rewrite app_nil_r.
      * destruct (isinstance e cls_JSONDecodeError) eqn:E3; cbn [orb].
        -- left. exists e. split; [exact E1|]. split; [now rewrite E2, E3|].
           unfold bind, print, ret, extend. simpl. now rewrite app_nil_r.
        -- right. exists e. now repeat split.
Qed.

(** A humidity sent as the number [1e400] is [inf] in Python: [int()]
    raises [OverflowError], which leaves the fetcher like the other
    exceptions of the conversions. *)
Example huge_humidity_overflows :
  _fetch_city_temperature
    (serving [("Pune", Response 200
       (js "{'current_condition': [{'humidity': 1e400, 'weatherDesc': [{'value': 'Sunny'}], 'windspeedKmph': '12'}], 'weather': [{'maxtempC': '34', 'mintempC': '26'}]}"))])
    "Pune" fresh
  = (Raise OverflowError, fresh).
Proof. vm_compute. reflexivity. Qed.

(** X2: when the request gets no answer, or an answer with a status from
    400 to 599, the fetcher returns [None] after one line reporting the
    failed request; the body of the answer is not looked at, and nothing
    else of the state changes. *)
Theorem failed_request_is_reported w city st e :
  (http_get w (url_of city) = NoResponse /\ e = ConnectionError) \/
  (exists status body,
     http_get w (url_of city) = Response status body /\
     400 <= status < 600 /\ e = HTTPError status) ->
  _fetch_city_temperature w city st
    = (Ok None, extend [] [MsgErrorFetching city e] st).
Proof.
  intros [[H ->]|(status & body & H & Hs & ->)];
    unfold _fetch_city_temperature, try_except, bind, requests_get; rewrite H.
  - unfold raise, print, ret, extend. simpl. now rewrite app_nil_r.
  - unfold raise_for_status, ret. cbn [fst].
    replace ((400 <=? status) && (status <? 600)) with true
      by (symmetry; apply andb_true_iff; split; [apply Z.leb_le | apply Z.ltb_lt]; lia).
    unfold raise, print, extend. simpl. now rewrite app_nil_r.
Qed.

Lemma failed_request_is_reported_witness :
  _fetch_city_temperature (serving [("Pune", Response 503 sample_body)]) "Pune" fresh
    = (Ok None, extend [] [MsgErrorFetching "Pune" (HTTPError 503)] fresh).
Proof.
  apply (failed_request_is_reported
           (serving [("Pune", Response 503 sample_body)]) "Pune" fresh (HTTPError 503)).
  right. exists 503, sample_body.
  split; [vm_compute; reflexivity | split; [lia | reflexivity]].
Defined.

(** The fetcher on an answer that passes the status check and holds a
    JSON document: what is left is the reading of the document. *)
Lemma fetch_parsed w city status body data st :
  http_get w (url_of city) = Response status body ->
  status_ok status = true ->
  json_loads body = Some data ->
  _fetch_city_temperature w city st =
  try_except
    (cc <- lift (getitem data (Key "current_condition")) ;;
     current_condition <- lift (getitem cc (Index 0)) ;;
     wt <- lift (getitem data (Key "weather")) ;;
     w0 <- lift (getitem wt (Index 0)) ;;
     min_temp <- lift (getitem w0 (Key "mintempC")) ;;
     wt' <- lift (getitem data (Key "weather")) ;;
     w0' <- lift (getitem wt' (Index 0)) ;;
     max_temp <- lift (getitem w0' (Key "maxtempC")) ;;
     wd <- lift (getitem current_condition (Key "weatherDesc")) ;;
     wd0 <- lift (getitem wd (Index 0)) ;;
     condition <- lift (getitem wd0 (Key "value")) ;;
     humidity <- lift (getitem current_condition (Key "humidity")) ;;
     wind_speed <- lift (getitem current_condition (Key "windspeedKmph")) ;;
     min_f <- lift (py_float min_temp) ;;
     max_f <- lift (py_float max_temp) ;;
     hum_i <- lift (py_int humidity) ;;
     wind_f <- lift (py_float wind_speed) ;;
     ret (Some {| City := city;
                  Min_Temp := min_f;
                  Max_Temp := max_f;
                  Current_Condition := condition;
                  Humidity := hum_i;
                  Wind_Speed := wind_f;
                  Fetched_At := strftime_display (now_at w city) |}))
    [ ([cls_RequestException],
       fun e => print (MsgErrorFetching city e) ;; ret None);
      ([cls_KeyError; cls_JSONDecodeError],
       fun e => print (MsgErrorParsing city e) ;; ret None) ] st.
Proof.
  intros H Hs Hj. unfold status_ok in Hs. apply negb_true_iff in Hs.
  unfold _fetch_city_temperature, try_except.
  unfold bind at 1, requests_get. rewrite H. unfold ret at 1.
  unfold bind at 1, raise_for_status. cbn [fst]. rewrite Hs. unfold ret at 1.
  unfold bind at 1, response_json. cbn [snd]. rewrite Hj. unfold ret at 1.
  reflexivity.
Qed.

(** X3: a body that is JSON but not an object (an array, a string, a
    number, [null]) makes the fetcher raise [TypeError], which neither
    [except] clause of the fetcher names: nothing is returned and nothing
    printed. *)
Theorem non_object_body_raises_type_error w city status body data st :
  http_get w (url_of city) = Response status body ->
  status_ok status = true ->
  json_loads body = Some data ->
  (forall d, data <> PDict d) ->
  _fetch_city_temperature w city st = (Raise TypeError, st).
Proof.
  intros H Hs Hj Hd. rewrite (fetch_parsed _ _ _ _ _ _ H Hs Hj).
  destruct data; try reflexivity. now destruct (Hd d).
Qed.

Lemma non_object_body_raises_type_error_witness :
  _fetch_city_temperature (serving [("Pune", Response 200 "[1, 2]")]) "Pune" fresh
    = (Raise TypeError, fresh).
Proof.
  apply (non_object_body_raises_type_error
           (serving [("Pune", Response 200 "[1, 2]")]) "Pune" 200 "[1, 2]"
           (PList [PInt 1; PInt 2]) fresh);
    [vm_compute; reflexivity | reflexivity | vm_compute; reflexivity | discriminate].
Defined.

(** X4: an object without the key [current_condition] makes the fetcher
    return [None] after one line reporting the parse failure, with that
    key named, whatever else the object holds: [current_condition] is the
    first key the fetcher reads. *)
Theorem missing_current_condition_is_reported w city status body d st :
  http_get w (url_of city) = Response status body ->
  status_ok status = true ->
  json_loads body = Some (PDict d) ->
  dict_get d "current_condition" = None ->
  _fetch_city_temperature w city st
    = (Ok None,
       extend [] [MsgErrorParsing city (KeyError (Key "current_condition"))] st).
Proof.
  intros H Hs Hj Hd. rewrite (fetch_parsed _ _ _ _ _ _ H Hs Hj).
  unfold try_except, bind at 1, lift at 1, getitem. rewrite Hd.
  unfold bind, print, ret, extend. simpl. now rewrite app_nil_r.
Qed.

Lemma missing_current_condition_is_reported_witness :
  _fetch_city_temperature (serving [("Pune", Response 200 "{}")]) "Pune" fresh
    = (Ok None,
       extend [] [MsgErrorParsing "Pune" (KeyError (Key "current_condition"))] fresh).
Proof.
  apply (missing_current_condition_is_reported
           (serving [("Pune", Response 200 "{}")]) "Pune" 200 "{}" [] fresh);
    [vm_compute; reflexivity | reflexivity | vm_compute; reflexivity | reflexivity].
Defined.

(** X5: an object whose [current_condition] is an empty array makes the
    fetcher raise [IndexError], for every city and whatever else the
    object holds; nothing is returned and nothing printed. *)
Theorem empty_current_condition_raises w city status body d st :
  http_get w (url_of city) = Response status body ->
  status_ok status = true ->
  json_loads body = Some (PDict d) ->
  dict_get d "current_condition" = Some (PList []) ->
  _fetch_city_temperature w city st = (Raise IndexError, st).
Proof.
  intros H Hs Hj Hd. rewrite (fetch_parsed _ _ _ _ _ _ H Hs Hj).
  unfold try_except, bind at 1, lift at 1, getitem. rewrite Hd. reflexivity.
Qed.

Lemma empty_current_condition_raises_witness :
  _fetch_city_temperature
    (serving [("Shimla", Response 200 (js "{'current_condition': []}"))]) "Shimla" after_first_run
    = (Raise IndexError, after_first_run).
Proof.
  apply (empty_current_condition_raises
           (serving [("Shimla", Response 200 (js "{'current_condition': []}"))]) "Shimla" 200
           (js "{'current_condition': []}") [("current_condition", PList [])]
           after_first_run);
    [vm_compute; reflexivity | reflexivity | vm_compute; reflexivity | reflexivity].
Defined.

(** ** [float()] and [int()] on the text of an integer *)

Lemma digit_not_space c : is_digit c = true -> is_space c = false.
Proof. each_char c; intros H; try discriminate H; reflexivity. Qed.

Lemma digit_not_sign c :
  is_digit c = true -> (c =? "-")%char = false /\ (c =? "+")%char = false.
Proof. each_char c; intros H; try discriminate H; split; reflexivity. Qed.

Lemma all_digits_no_space s : all_digits s = true -> no_space s = true.
Proof.
  induction s as [|c s IH]; simpl; [reflexivity|].
  intros H. apply andb_true_iff in H as [Hc Hs].
  now rewrite (digit_not_space c Hc), IH.
Qed.

Lemma lstrip_no_space s : no_space s = true -> lstrip s = s.
Proof.
  destruct s as [|c s]; simpl; [reflexivity|].
  destruct (is_space c); [discriminate | reflexivity].
Qed.

Lemma rstrip_no_space s : no_space s = true -> rstrip s = s.
Proof.
  induction s as [|c s IH]; simpl; [reflexivity|].
  intros H. apply andb_true_iff in H as [Hc Hs]. apply negb_true_iff in Hc.
  rewrite (IH Hs), Hc. now destruct s.
Qed.

Lemma strip_no_space s : no_space s = true -> strip s = s.
Proof.
  intros H. unfold strip. rewrite (lstrip_no_space s H). now apply rstrip_no_space.
Qed.

Lemma digitpart_tail_digits s : all_digits s = true -> digitpart_tail s = (s, "").
Proof.
  induction s as [|c s IH]; simpl; [reflexivity|].
  intros H. apply andb_true_iff in H as [Hc Hs]. now rewrite Hc, (IH Hs).
Qed.

Lemma digitpart_digits s : all_digits s = true -> s <> "" -> digitpart s = Some (s, "").
Proof.
  destruct s as [|c s]; [congruence|]. simpl. intros H _.
  apply andb_true_iff in H as [Hc Hs]. now rewrite Hc, (digitpart_tail_digits s Hs).
Qed.

(** The text of an integer: a sign, if it is negative, and digits. *)
Lemma int_repr_parts z :
  exists neg ds,
    int_repr z = (if neg : bool then String "-" ds else ds) /\
    all_digits ds = true /\ ds <> "" /\
    (if neg then - digits_val ds else digits_val ds) = z.
Proof.
  unfold int_repr. destruct (Z.ltb_spec z 0) as [Hneg|Hpos].
  - destruct (nat_digits_spec (- z)) as (H1 & H2 & (c & tl & H3 & _) & _); [lia|].
    exists true, (nat_digits (- z)). repeat split; try assumption; [|lia].
    rewrite H3. discriminate.
  - destruct (nat_digits_spec z Hpos) as (H1 & H2 & (c & tl & H3 & _) & _).
    exists false, (nat_digits z). repeat split; try assumption.
    rewrite H3. discriminate.
Qed.

Lemma read_sign_int_repr z :
  exists neg ds,
    read_sign (strip (int_repr z)) = (neg, ds) /\
    all_digits ds = true /\ ds <> "" /\
    (if neg : bool then - digits_val ds else digits_val ds) = z.
Proof.
  destruct (int_repr_parts z) as (neg & ds & -> & Hd & Hne & Hv).
  exists neg, ds. split; [|auto].
  destruct neg.
  - rewrite strip_no_space; [reflexivity|].
    simpl. now apply all_digits_no_space.
  - rewrite strip_no_space by now apply all_digits_no_space.
    destruct ds as [|c ds]; [congruence|]. simpl in Hd.
    apply andb_true_iff in Hd as [Hc _].
    destruct (digit_not_sign c Hc) as [E1 E2]. simpl. now rewrite E1, E2.
Qed.

Lemma int_of_str_int_repr z : int_of_str (int_repr z) = Some z.
Proof.
  destruct (read_sign_int_repr z) as (neg & ds & Hr & Hd & Hne & Hv).
  unfold int_of_str. rewrite Hr, (digitpart_digits ds Hd Hne). now rewrite Hv.
Qed.

Lemma float_of_str_int_repr z : float_of_str (int_repr z) = Some (float_of_Z z).
Proof.
  destruct (read_sign_int_repr z) as (neg & ds & Hr & Hd & Hne & Hv).
  unfold float_of_str. rewrite Hr, (digitpart_digits ds Hd Hne).
  unfold read_exponent, float_literal, float_of_Z. rewrite append_nil_r, Hv.
  reflexivity.
Qed.

(** X6: an answer that passes the status check, with a JSON object in
    which the keys the fetcher reads are there, the arrays have a first
    element, the temperatures, the humidity and the wind speed are
    decimal integers in strings, and the description is a string, gives
    the record that holds exactly these numbers, the description, the
    city asked and the clock reading; the fetcher prints nothing.
    Whatever else the object holds is not looked at.  The integers are
    taken in the range a float holds exactly. *)
Theorem fetch_reads_weather_doc w city status body st
    d cc cc_more w0 w_more wd wd_more mn mx hum wind desc :
  http_get w (url_of city) = Response status body ->
  status_ok status = true ->
  json_loads body = Some (PDict d) ->
  dict_get d "current_condition" = Some (PList (PDict cc :: cc_more)) ->
  dict_get d "weather" = Some (PList (PDict w0 :: w_more)) ->
  dict_get w0 "mintempC" = Some (PStr (int_repr mn)) ->
  dict_get w0 "maxtempC" = Some (PStr (int_repr mx)) ->
  dict_get cc "weatherDesc" = Some (PList (PDict wd :: wd_more)) ->
  dict_get wd "value" = Some (PStr desc) ->
  dict_get cc "humidity" = Some (PStr (int_repr hum)) ->
  dict_get cc "windspeedKmph" = Some (PStr (int_repr wind)) ->
  exact_range mn = true -> exact_range mx = true ->
  exact_range hum = true -> exact_range wind = true ->
  _fetch_city_temperature w city st =
  (Ok (Some {| City := city;
               Min_Temp := float_of_Z mn;
               Max_Temp := float_of_Z mx;
               Current_Condition := PStr desc;
               Humidity := hum;
               Wind_Speed := float_of_Z wind;
               Fetched_At := strftime_display (now_at w city) |}), st).
Proof.
  intros H Hs Hj Hcc Hw Hmn Hmx Hwd Hv Hh Hws _ _ _ _.
  rewrite (fetch_parsed _ _ _ _ _ _ H Hs Hj).
  unfold try_except, bind, lift, ret.
  cbn [getitem]. rewrite Hcc. cbn [getitem nth_error].
  rewrite Hw. cbn [getitem nth_error]. rewrite Hmn, Hmx, Hwd.
  cbn [getitem nth_error]. rewrite Hv, Hh, Hws.
  unfold py_float, py_int.
  rewrite !float_of_str_int_repr, int_of_str_int_repr. reflexivity.
Qed.

Lemma fetch_reads_weather_doc_witness :
  _fetch_city_temperature mumbai_only "Mumbai" fresh =
  (Ok (Some {| City := "Mumbai";
               Min_Temp := float_of_Z 26;
               Max_Temp := float_of_Z 34;
               Current_Condition := PStr "Sunny";
               Humidity := 60;
               Wind_Speed := float_of_Z 12;
               Fetched_At := strftime_display (now_at mumbai_only "Mumbai") |}), fresh).
Proof.
  apply (fetch_reads_weather_doc mumbai_only "Mumbai" 200 sample_body fresh
           [ ("current_condition",
              PList [ PDict [ ("humidity", PStr "60");
                              ("weatherDesc", PList [ PDict [ ("value", PStr "Sunny") ] ]);
                              ("windspeedKmph", PStr "12") ] ]);
             ("weather",
              PList [ PDict [ ("maxtempC", PStr "34"); ("mintempC", PStr "26") ] ]) ]
           [ ("humidity", PStr "60");
             ("weatherDesc", PList [ PDict [ ("value", PStr "Sunny") ] ]);
             ("windspeedKmph", PStr "12") ]
           []
           [ ("maxtempC", PStr "34"); ("mintempC", PStr "26") ]
           []
           [ ("value", PStr "Sunny") ]
           []
           26 34 60 12 "Sunny");
    vm_compute; reflexivity.
Defined.

(** ** The driver: what a run leaves alone *)

Lemma distinct_NoDup l : distinct l = true -> List.NoDup l.
Proof.
  induction l as [|k l IH]; simpl; intros H; constructor.
  - apply andb_true_iff in H as [H _]. apply negb_true_iff in H.
    intros Hin. rewrite <- not_true_iff_false in H. apply H.
    apply existsb_exists. exists k. split; [exact Hin | apply String.eqb_refl].
  - apply andb_true_iff in H as [_ H]. now apply IH.
Qed.

Lemma cities_distinct here ds fs : List.NoDup (cities (init here ds fs)).
Proof. apply distinct_NoDup. vm_compute. reflexivity. Qed.

Lemma collected_stamped w cs r :
  In r (collected w cs) ->
  In (City r) cs /\ fetch_result w (City r) = Ok (Some r).
Proof.
  unfold collected. rewrite in_flat_map. intros (c & Hc & Hr).
  unfold gathered in Hr. destruct (fetch_result w c) as [[x|]|e] eqn:E; simpl in Hr;
    try contradiction.
  destruct Hr as [->|[]]. rewrite (fetch_result_city _ _ _ E). now split.
Qed.

(** X7: the first run of a new scraper returns at most one record per
    city: the cities of the records are pairwise distinct names of the
    city list, in the order of the list, so there are at most 15 records,
    and each record is what the fetcher returned for its city. *)
Theorem first_run_one_record_per_city w here ds fs :
  exists rs,
    fst (scrape_weather_data w (init here ds fs)) = Ok rs /\
    List.NoDup (map City rs) /\
    (length rs <= 15)%nat /\
    (forall r, In r rs ->
       In (City r) (cities (init here ds fs)) /\
       fst (_fetch_city_temperature w (City r) (init here ds fs)) = Ok (Some r)).
Proof.
  exists (collected w (cities (init here ds fs))).
  rewrite scrape_run. split; [reflexivity|]. split; [|split].
  - rewrite cities_collected. apply List.NoDup_filter, cities_distinct.
  - rewrite length_collected. unfold count_successes.
    etransitivity; [apply List.filter_length_le | reflexivity].
  - intros r Hr. destruct (collected_stamped _ _ _ Hr) as [H1 H2].
    split; [exact H1|]. rewrite fetch_run. exact H2.
Qed.

(** X8: a run writes no file and makes no directory, and it leaves the
    city list and the output directory of the scraper as they are; the
    records held before the run stay in front of the collection, and the
    lines printed before it stay in front of the output. *)
Theorem run_touches_no_file w st :
  let st' := snd (scrape_weather_data w st) in
  files st' = files st /\ dirs st' = dirs st /\
  cities st' = cities st /\ output_dir st' = output_dir st /\
  (exists new, temperature_data st' = (temperature_data st ++ new)%list) /\
  (exists lines, stdout st' = (stdout st ++ lines)%list).
Proof.
  rewrite scrape_run. simpl. repeat split; eauto.
Qed.

(** ** The exporters: the files they write *)

Lemma length_fixed_digits k n : String.length (fixed_digits k n) = k.
Proof.
  revert n. induction k as [|k IH]; intros n; simpl; [reflexivity|].
  rewrite length_append, IH. simpl. lia.
Qed.

Lemma length_strftime_file t : String.length (strftime_file t) = 15%nat.
Proof.
  unfold strftime_file. rewrite !length_append, !length_fixed_digits. reflexivity.
Qed.

Lemma append_inj_l a b c : a ++ b = a ++ c -> b = c.
Proof.
  induction a as [|x a IH]; simpl; [trivial|]. intros H. apply IH.
  now apply String_inj in H.
Qed.

Lemma append_inj_length a b c d :
  String.length a = String.length c -> a ++ b = c ++ d -> a = c /\ b = d.
Proof.
  revert c. induction a as [|x a IH]; intros [|y c]; simpl; try discriminate.
  - auto.
  - intros Hl H. injection H as -> H. injection Hl as Hl.
    destruct (IH c Hl H) as [-> ->]. auto.
Qed.

(** The two exporters never write to the same path: the names differ in
    length. *)
Lemma csv_path_not_json_path t1 t2 st : csv_path t1 st <> json_path t2 st.
Proof.
  unfold csv_path, json_path. intros H. apply append_inj_l, append_inj_l in H.
  apply (f_equal String.length) in H.
  rewrite !length_append, !length_strftime_file in H. discriminate.
Qed.

Lemma fixed_digits_inj k a b :
  0 <= a < 10 ^ Z.of_nat k -> 0 <= b < 10 ^ Z.of_nat k ->
  fixed_digits k a = fixed_digits k b -> a = b.
Proof.
  revert a b. induction k as [|k IH]; intros a b Ha Hb H.
  - simpl in Ha, Hb. lia.
  - simpl in H. rewrite Nat2Z.inj_succ, Z.pow_succ_r in Ha, Hb by lia.
    apply append_inj_length in H; [|now rewrite !length_fixed_digits].
    destruct H as [H1 H2]. injection H2 as H2.
    assert (Hma : 0 <= a mod 10 < 10) by (apply Z.mod_pos_bound; lia).
    assert (Hmb : 0 <= b mod 10 < 10) by (apply Z.mod_pos_bound; lia).
    destruct (digit_cases _ Hma) as (_ & Da & _).
    destruct (digit_cases _ Hmb) as (_ & Db & _).
    assert (Hm : a mod 10 = b mod 10) by congruence.
    assert (Hd : a / 10 = b / 10).
    { apply IH; [| | exact H1].
      - split; [apply Z.div_pos; lia | apply Z.div_lt_upper_bound; lia].
      - split; [apply Z.div_pos; lia | apply Z.div_lt_upper_bound; lia]. }
    rewrite (Z.div_mod a 10), (Z.div_mod b 10) by lia. congruence.
Qed.

(** Two readings of the clock have the same stamp only if they are the
    same reading. *)
Lemma strftime_file_inj t1 t2 :
  calendar t1 = true -> calendar t2 = true ->
  strftime_file t1 = strftime_file t2 -> t1 = t2.
Proof.
  unfold calendar. rewrite !andb_true_iff, !Z.leb_le.
  intros H1 H2 H. unfold strftime_file in H.
  destruct t1 as [y1 m1 d1 h1 i1 s1], t2 as [y2 m2 d2 h2 i2 s2]; cbn [year month day hour minute second] in *.
  apply append_inj_length in H; [|now rewrite !length_fixed_digits]. destruct H as [Ey H].
  apply append_inj_length in H; [|now rewrite !length_fixed_digits]. destruct H as [Em H].
  apply append_inj_length in H; [|now rewrite !length_fixed_digits]. destruct H as [Ed H].
  apply String_inj in H.
  apply append_inj_length in H; [|now rewrite !length_fixed_digits]. destruct H as [Eh H].
  apply append_inj_length in H; [|now rewrite !length_fixed_digits]. destruct H as [Ei Es].
  apply fixed_digits_inj in Ey; [|change (10 ^ Z.of_nat 4) with 10000; lia ..].
  apply fixed_digits_inj in Em, Ed, Eh, Ei, Es;
    try (change (10 ^ Z.of_nat 2) with 100; lia).
  congruence.
Qed.

Lemma csv_path_inj t1 t2 st :
  calendar t1 = true -> calendar t2 = true ->
  csv_path t1 st = csv_path t2 st -> t1 = t2.
Proof.
  intros H1 H2 H. unfold csv_path in H. apply append_inj_l, append_inj_l in H.
  apply append_inj_length in H; [|now rewrite !length_strftime_file].
  now apply strftime_file_inj.
Qed.

Lemma json_path_inj t1 t2 st :
  calendar t1 = true -> calendar t2 = true ->
  json_path t1 st = json_path t2 st -> t1 = t2.
Proof.
  intros H1 H2 H. unfold json_path in H. apply append_inj_l, append_inj_l in H.
  apply append_inj_length in H; [|now rewrite !length_strftime_file].
  now apply strftime_file_inj.
Qed.

(** X9: an export changes the file system at one path at most, the path
    of the file it writes, whether it ends normally or raises: every
    other file is as it was, and so are the directories, the city list,
    the output directory and the records held. *)
Theorem exports_write_one_path now st :
  let st1 := snd (save_to_csv now st) in
  let st2 := snd (save_to_json now st) in
  (forall path, path <> csv_path now st -> files st1 !! path = files st !! path) /\
  (forall path, path <> json_path now st -> files st2 !! path = files st !! path) /\
  dirs st1 = dirs st /\ dirs st2 = dirs st /\
  cities st1 = cities st /\ cities st2 = cities st /\
  output_dir st1 = output_dir st /\ output_dir st2 = output_dir st /\
  temperature_data st1 = temperature_data st /\ temperature_data st2 = temperature_data st.
Proof.
  intros st1 st2. subst st1 st2.
  destruct (save_to_csv_keeps_dir now st) as (C1 & C2 & C3).
  destruct (save_to_json_keeps_dir now st) as (J1 & J2 & J3).
  rewrite save_to_csv_files, save_to_json_files.
  rewrite save_to_csv_keeps_data, save_to_json_keeps_data.
  split; [|split]; [| |tauto].
  - intros path Hp. destruct (temperature_data st); [reflexivity|].
    destruct (can_write _ st); [|reflexivity]. now rewrite lookup_insert_ne.
  - intros path Hp. destruct (temperature_data st); [reflexivity|].
    destruct (can_write _ st); [|reflexivity]. now rewrite lookup_insert_ne.
Qed.

(** X10: after the CSV export and then the JSON export, as [main] calls
    them, each of the two paths holds what its export leaves there when
    called alone: the second export does not touch the file of the
    first, even when both read the same second off the clock, because
    the two paths are never the same. *)
Theorem csv_and_json_exports_coexist t1 t2 st :
  let st' := snd (save_to_json t2 (snd (save_to_csv t1 st))) in
  csv_path t1 st <> json_path t2 st /\
  files st' !! csv_path t1 st = files (snd (save_to_csv t1 st)) !! csv_path t1 st /\
  files st' !! json_path t2 st = files (snd (save_to_json t2 st)) !! json_path t2 st.
Proof.
  intros st'. subst st'.
  assert (Hp : csv_path t1 st <> json_path t2 st) by apply csv_path_not_json_path.
  destruct (save_to_csv_keeps_dir t1 st) as (C1 & C2 & C3).
  split; [exact Hp|].
  rewrite (save_to_json_files t2 (snd (save_to_csv t1 st))), (save_to_json_files t2 st).
  rewrite save_to_csv_keeps_data, (json_path_dir t2 st _ C1), (can_write_same _ st _ C1 C2).
  rewrite !(save_to_csv_files t1 st).
  destruct (temperature_data st) as [|r data] eqn:E; [split; reflexivity|].
  destruct (can_write (json_path t2 st) st), (can_write (csv_path t1 st) st);
    split; rewrite ?lookup_insert_eq, ?(lookup_insert_ne _ (json_path t2 st) (csv_path t1 st)),
             ?(lookup_insert_ne _ (csv_path t1 st) (json_path t2 st)), ?lookup_insert_eq
      by congruence; reflexivity.
Qed.

(** X11: an export made again at the same reading of the clock, with no
    run in between, writes the same file once more: the file system is as
    it was after the first export. *)
Theorem export_again_at_same_reading now st :
  files (snd (save_to_csv now (snd (save_to_csv now st))))
    = files (snd (save_to_csv now st)) /\
  files (snd (save_to_json now (snd (save_to_json now st))))
    = files (snd (save_to_json now st)).
Proof.
  split.
  - destruct (save_to_csv_keeps_dir now st) as (C1 & C2 & C3).
    rewrite (save_to_csv_files now (snd (save_to_csv now st))).
    rewrite save_to_csv_keeps_data, (csv_path_dir now st _ C1).
    rewrite (can_write_same _ st _ C1 C2).
    rewrite (sorted_frame_data st) by apply save_to_csv_keeps_data.
    rewrite save_to_csv_files.
    destruct (temperature_data st); [reflexivity|].
    destruct (can_write (csv_path now st) st); [apply insert_insert_eq | reflexivity].
  - destruct (save_to_json_keeps_dir now st) as (J1 & J2 & J3).
    rewrite (save_to_json_files now (snd (save_to_json now st))).
    rewrite save_to_json_keeps_data, (json_path_dir now st _ J1).
    rewrite (can_write_same _ st _ J1 J2).
    rewrite save_to_json_files.
    destruct (temperature_data st); [reflexivity|].
    destruct (can_write (json_path now st) st); [apply insert_insert_eq | reflexivity].
Qed.

(** X12: what an export leaves at its path survives a later run and a
    later export made at another reading of the clock: the stamps of two
    different readings differ, so the later export writes to another
    path. *)
Theorem later_export_keeps_earlier w t1 t2 st :
  calendar t1 = true -> calendar t2 = true -> t1 <> t2 ->
  let after_csv := snd (scrape_weather_data w (snd (save_to_csv t1 st))) in
  let after_json := snd (scrape_weather_data w (snd (save_to_json t1 st))) in
  csv_path t1 st <> csv_path t2 st /\
  json_path t1 st <> json_path t2 st /\
  files (snd (save_to_csv t2 after_csv)) !! csv_path t1 st
    = files (snd (save_to_csv t1 st)) !! csv_path t1 st /\
  files (snd (save_to_json t2 after_json)) !! json_path t1 st
    = files (snd (save_to_json t1 st)) !! json_path t1 st.
Proof.
  intros H1 H2 Hne after_csv after_json. subst after_csv after_json.
  assert (Pc : csv_path t1 st <> csv_path t2 st).
  { intros E. apply Hne. eapply csv_path_inj; eassumption. }
  assert (Pj : json_path t1 st <> json_path t2 st).
  { intros E. apply Hne. eapply json_path_inj; eassumption. }
  split; [exact Pc|]. split; [exact Pj|]. split.
  - destruct (save_to_csv_keeps_dir t1 st) as (C1 & C2 & C3).
    set (st1 := snd (save_to_csv t1 st)) in *.
    set (st2 := snd (scrape_weather_data w st1)).
    assert (D : output_dir st2 = output_dir st /\ files st2 = files st1).
    { subst st2. rewrite scrape_run. simpl. now split. }
    destruct D as [D1 D2].
    rewrite (save_to_csv_files t2 st2), (csv_path_dir t2 st _ D1), D2.
    destruct (temperature_data st2); [reflexivity|].
    destruct (can_write (csv_path t2 st) st2); [|reflexivity].
    now rewrite lookup_insert_ne by congruence.
  - destruct (save_to_json_keeps_dir t1 st) as (J1 & J2 & J3).
    set (st1 := snd (save_to_json t1 st)) in *.
    set (st2 := snd (scrape_weather_data w st1)).
    assert (D : output_dir st2 = output_dir st /\ files st2 = files st1).
    { subst st2. rewrite scrape_run. simpl. now split. }
    destruct D as [D1 D2].
    rewrite (save_to_json_files t2 st2), (json_path_dir t2 st _ D1), D2.
    destruct (temperature_data st2); [reflexivity|].
    destruct (can_write (json_path t2 st) st2); [|reflexivity].
    now rewrite lookup_insert_ne by congruence.
Qed.

Lemma later_export_keeps_earlier_witness :
  let t2 := {| year := 2026; month := 3; day := 7; hour := 9; minute := 5; second := 16 |} in
  let st := after_first_run in
  let after_csv := snd (scrape_weather_data shimla_only (snd (save_to_csv sample_time st))) in
  let after_json := snd (scrape_weather_data shimla_only (snd (save_to_json sample_time st))) in
  csv_path sample_time st <> csv_path t2 st /\
  json_path sample_time st <> json_path t2 st /\
  files (snd (save_to_csv t2 after_csv)) !! csv_path sample_time st
    = files (snd (save_to_csv sample_time st)) !! csv_path sample_time st /\
  files (snd (save_to_json t2 after_json)) !! json_path sample_time st
    = files (snd (save_to_json sample_time st)) !! json_path sample_time st.
Proof.
  apply (later_export_keeps_earlier shimla_only sample_time
           {| year := 2026; month := 3; day := 7; hour := 9; minute := 5; second := 16 |}
           after_first_run);
    [reflexivity | reflexivity | discriminate].
Defined.

(** ** The summary *)

Lemma float_lt_irrefl a : ~ float_lt a a.
Proof.
  unfold float_lt, float_ltb. pose proof (float_le_refl a) as H. unfold float_le in H.
  rewrite H. discriminate.
Qed.

Lemma nth_error_split {A} (before : list A) x after i r :
  nth_error (before ++ x :: after) i = Some r ->
  ((i < length before)%nat /\ In r before) \/
  (i = length before /\ r = x) \/
  ((length before < i)%nat /\ In r after).
Proof.
  intros H. destruct (Nat.lt_trichotomy i (length before)) as [Hlt|[Heq|Hgt]].
  - left. split; [exact Hlt|]. rewrite nth_error_app1 in H by exact Hlt.
    eapply nth_error_In, H.
  - right. left. split; [exact Heq|]. subst i.
    rewrite nth_error_app2, Nat.sub_diag in H by lia. now injection H as <-.
  - right. right. split; [exact Hgt|]. rewrite nth_error_app2 in H by lia.
    destruct (i - length before)%nat as [|k] eqn:E; [lia|]. simpl in H.
    eapply nth_error_In, H.
Qed.

(** A row that no row ranks before is the first of the sorted rows. *)
Lemma head_of_ranking (R : nat * temperature_record -> nat * temperature_record -> Prop)
      data before x after sorted :
  data = (before ++ x :: after)%list ->
  Permutation (rows (DataFrame data)) sorted -> StronglySorted R sorted ->
  (forall i r, nth_error data i = Some r -> ~ R (i, r) (length before, x)) ->
  exists tl, sorted = (length before, x) :: tl.
Proof.
  intros Hd Hp Hs Hmin.
  assert (Hin : In (length before, x) sorted).
  { apply (Permutation_in _ Hp). apply rows_nth. rewrite Hd.
    rewrite nth_error_app2, Nat.sub_diag by lia. reflexivity. }
  destruct sorted as [|[i r] tl]; [contradiction|]. exists tl.
  destruct Hin as [->|Hin]; [reflexivity|]. exfalso.
  inversion Hs as [|? ? _ Hall]; subst. rewrite List.Forall_forall in Hall.
  apply (Hmin i r); [|now apply Hall].
  apply rows_nth. apply (Permutation_in _ (Permutation_sym Hp)). now left.
Qed.

(** The rows by decreasing maximum start with the row the headline
    names as hottest. *)
Lemma hottest_row_first data :
  data <> [] ->
  exists i hot tl,
    stable_sort by_max_desc (rows (DataFrame data)) = (i, hot) :: tl /\
    In hot data /\
    hottest_city (summarize data) = Some (City hot) /\
    hottest_temp (summarize data) = Some (Max_Temp hot).
Proof.
  intros Hne. destruct (idxmax_spec data Hne) as (before & hot & after & Hd & Hb & Ha & Hc & Ht).
  destruct (head_of_ranking hotter data before hot after
              (stable_sort by_max_desc (rows (DataFrame data))) Hd
              (stable_sort_perm _ _) (nlargest_sorted data)) as (tl & Htl).
  - intros i r Hn Hr. rewrite Hd in Hn.
    rewrite List.Forall_forall in Hb, Ha.
    assert (Hle : (i < length before)%nat -> float_lt (Max_Temp r) (Max_Temp hot)).
    { intros Hi. destruct (nth_error_split _ _ _ _ _ Hn) as [[_ H]|[[H _]|[H _]]];
        [now apply Hb | lia | lia]. }
    assert (Hall : float_le (Max_Temp r) (Max_Temp hot)).
    { destruct (nth_error_split _ _ _ _ _ Hn) as [[_ H]|[[_ ->]|[_ H]]];
        [apply float_lt_le; now apply Hb | apply float_le_refl | now apply Ha]. }
    destruct Hr as [Hr|[Hr Hi]]; simpl in Hr.
    + apply (float_lt_irrefl (Max_Temp hot)). eapply float_lt_le_trans; eassumption.
    + simpl in Hi. apply (float_lt_irrefl (Max_Temp r)).
      eapply float_lt_eq_trans; [apply Hle, Hi | apply float_eq_sym, Hr].
  - exists (length before), hot, tl. split; [exact Htl|]. split; [|split; assumption].
    rewrite Hd. apply in_or_app. right. now left.
Qed.

Lemma coldest_row_first data :
  data <> [] ->
  exists i cold tl,
    stable_sort by_min_asc (rows (DataFrame data)) = (i, cold) :: tl /\
    In cold data /\
    coldest_city (summarize data) = Some (City cold) /\
    coldest_temp (summarize data) = Some (Min_Temp cold).
Proof.
  intros Hne. destruct (idxmin_spec data Hne) as (before & cold & after & Hd & Hb & Ha & Hc & Ht).
  destruct (head_of_ranking colder data before cold after
              (stable_sort by_min_asc (rows (DataFrame data))) Hd
              (stable_sort_perm _ _) (nsmallest_sorted data)) as (tl & Htl).
  - intros i r Hn Hr. rewrite Hd in Hn.
    rewrite List.Forall_forall in Hb, Ha.
    assert (Hle : (i < length before)%nat -> float_lt (Min_Temp cold) (Min_Temp r)).
    { intros Hi. destruct (nth_error_split _ _ _ _ _ Hn) as [[_ H]|[[H _]|[H _]]];
        [now apply Hb | lia | lia]. }
    assert (Hall : float_le (Min_Temp cold) (Min_Temp r)).
    { destruct (nth_error_split _ _ _ _ _ Hn) as [[_ H]|[[_ ->]|[_ H]]];
        [apply float_lt_le; now apply Hb | apply float_le_refl | now apply Ha]. }
    destruct Hr as [Hr|[Hr Hi]]; simpl in Hr.
    + apply (float_lt_irrefl (Min_Temp r)). eapply float_lt_le_trans; eassumption.
    + simpl in Hi. apply (float_lt_irrefl (Min_Temp r)).
      eapply float_eq_lt_trans; [exact Hr | apply Hle, Hi].
  - exists (length before), cold, tl. split; [exact Htl|]. split; [|split; assumption].
    rewrite Hd. apply in_or_app. right. now left.
Qed.

(** X13: the two tables of the summary start with the cities its
    headline names: the first row of the five hottest is the hottest city
    with the hottest temperature as its maximum, and the first row of the
    five coldest is the coldest city with the coldest temperature as its
    minimum. *)
Theorem tables_start_with_the_extremes data :
  data <> [] ->
  let s := summarize data in
  (exists city mn mx cond rest,
     top_hot s = (city, mn, mx, cond) :: rest /\
     hottest_city s = Some city /\ hottest_temp s = Some mx) /\
  (exists city mn mx cond rest,
     top_cold s = (city, mn, mx, cond) :: rest /\
     coldest_city s = Some city /\ coldest_temp s = Some mn).
Proof.
  intros Hne s. subst s. split.
  - destruct (hottest_row_first data Hne) as (i & hot & tl & H1 & _ & H2 & H3).
    exists (City hot), (Min_Temp hot), (Max_Temp hot), (Current_Condition hot),
           (map brief (firstn 4 tl)).
    split; [|split; assumption].
    unfold summarize, nlargest_max. cbn [top_hot rows]. rewrite H1. reflexivity.
  - destruct (coldest_row_first data Hne) as (i & cold & tl & H1 & _ & H2 & H3).
    exists (City cold), (Min_Temp cold), (Max_Temp cold), (Current_Condition cold),
           (map brief (firstn 4 tl)).
    split; [|split; assumption].
    unfold summarize, nsmallest_min. cbn [top_cold rows]. rewrite H1. reflexivity.
Qed.

Lemma tables_start_with_the_extremes_witness :
  let s := summarize [shimla; mumbai] in
  (exists city mn mx cond rest,
     top_hot s = (city, mn, mx, cond) :: rest /\
     hottest_city s = Some city /\ hottest_temp s = Some mx) /\
  (exists city mn mx cond rest,
     top_cold s = (city, mn, mx, cond) :: rest /\
     coldest_city s = Some city /\ coldest_temp s = Some mn).
Proof. apply (tables_start_with_the_extremes [shimla; mumbai]). discriminate. Defined.



(** ** The script *)

Lemma bind_run {A B} (c : M A) (k : A -> M B) st a :
  fst (c st) = Ok a -> bind c k st = k a (snd (c st)).
Proof. unfold bind. destruct (c st) as [r s]. simpl. now intros ->. Qed.

Lemma collected_none w cs : count_successes w cs = 0%nat -> collected w cs = [].
Proof. intros H. apply length_zero_iff_nil. now rewrite length_collected. Qed.


(** The output directory is made, or is there already. *)
Lemma mkdir_output here ds fs :
  here ∈ ds -> fs !! (here ++ "/output") = None ->
  mkdir_exist_ok here (here ++ "/output") ds fs = Ok ({[ here ++ "/output" ]} ∪ ds).
Proof.
  intros Hh Hf. unfold mkdir_exist_ok, is_file.
  rewrite (bool_decide_true _ Hh), Hf.
  destruct (bool_decide (here ++ "/output" ∈ ds)) eqn:E; [|reflexivity].
  apply bool_decide_eq_true in E. f_equal. symmetry.
  apply subseteq_union_1_L, singleton_subseteq_l, E.
Qed.

(** With the directory of the script in place and no regular file named
    [output] in it, the constructor ends normally. *)
Lemma constructor_run here ds fs :
  here ∈ ds -> fs !! (here ++ "/output") = None ->
  TemperatureScraper here ds fs = Ok (init here ds fs).
Proof.
  intros Hh Hf. unfold TemperatureScraper. now rewrite (mkdir_output here ds fs Hh Hf).
Qed.




(** X15: with the directory of the script in place, and when no fetch
    succeeds, the script ends normally, having written no file: it makes
    the output directory, if that is not there yet, and after the lines
    of the run it prints that no data is available, and twice that there
    is no data to save. *)
Theorem main_with_no_success w t1 t2 here ds fs :
  here ∈ ds ->
  fs !! (here ++ "/output") = None ->
  count_successes w (cities (init here ds fs)) = 0%nat ->
  main w t1 t2 here ds fs =
  (Ok tt,
   ({[ here ++ "/output" ]} ∪ ds, fs,
    ([MsgStarting; MsgRule] ++ flat_map (city_log w) (cities (init here ds fs))
       ++ [MsgRule; MsgNoDataAvailable; MsgNoDataToSave; MsgNoDataToSave])%list)).
Proof.
  intros Hh Hf H. unfold main. rewrite (constructor_run here ds fs Hh Hf).
  rewrite (bind_run _ _ _ _ (f_equal fst (scrape_run w _))).
  rewrite scrape_run, (collected_none _ _ H). cbn [snd].
  set (st1 := extend [] _ (init here ds fs)).
  assert (E1 : temperature_data st1 = []) by reflexivity.
  assert (Ed : display_summary st1 = (Ok tt, extend [] [MsgNoDataAvailable] st1)).
  { unfold display_summary, bind, gets. rewrite E1. unfold print, extend.
    now rewrite E1, app_nil_r. }
  rewrite (bind_run _ _ _ _ (f_equal fst Ed)), Ed. cbn [snd].
  set (st2 := extend [] [MsgNoDataAvailable] st1).
  rewrite (bind_run _ _ _ _ (f_equal fst (save_to_csv_empty t1 st2 eq_refl))).
  rewrite (save_to_csv_empty t1 st2 eq_refl). cbn [snd].
  set (st3 := extend [] [MsgNoDataToSave] st2).
  rewrite (bind_run _ _ _ _ (f_equal fst (save_to_json_empty t2 st3 eq_refl))).
  rewrite (save_to_json_empty t2 st3 eq_refl). cbn [snd]. unfold ret.
  subst st3 st2 st1. rewrite !extend_extend. cbn [app].
  cbn [dirs files stdout extend init]. rewrite <- !app_assoc. reflexivity.
Qed.

Lemma main_with_no_success_witness :
  main silent sample_time sample_time "/app" {[ "/app" ]} ∅ =
  (Ok tt,
   ({[ "/app" ++ "/output" ]} ∪ {[ "/app" ]}, ∅,
    ([MsgStarting; MsgRule]
       ++ flat_map (city_log silent) (cities (init "/app" {[ "/app" ]} ∅))
       ++ [MsgRule; MsgNoDataAvailable; MsgNoDataToSave; MsgNoDataToSave])%list)).
Proof.
  apply (main_with_no_success silent sample_time sample_time "/app" {[ "/app" ]} ∅).
  - apply elem_of_singleton_2. reflexivity.
  - apply lookup_empty.
  - vm_compute. reflexivity.
Defined.



(** ** Exports that fail *)

(** Every state a scraper goes through has its output directory, as
    long as nothing outside removes it. *)
Lemma reachable_directory st : reachable st -> output_dir st ∈ dirs st.
Proof.
  induction 1 as [here ds fs | w st _ IH | now st _ IH | now st _ IH | st _ IH].
  - cbn [output_dir dirs init]. apply elem_of_union_l, elem_of_singleton_2. reflexivity.
  - rewrite scrape_run. exact IH.
  - destruct (save_to_csv_keeps_dir now st) as (-> & -> & _). exact IH.
  - destruct (save_to_json_keeps_dir now st) as (-> & -> & _). exact IH.
  - unfold display_summary, bind, gets.
    destruct (temperature_data st); exact IH.
Qed.

Lemma can_write_missing path st : output_dir st ∉ dirs st -> can_write path st = false.
Proof. intros H. unfold can_write. now rewrite (bool_decide_false _ H). Qed.

(** X17: with records held and the output directory missing, neither
    export writes anything: [save_to_csv] raises the [OSError] of pandas,
    [save_to_json] the [FileNotFoundError] of [open], or
    [NotADirectoryError] when a regular file has the name of the
    directory; the state is as it was, and no line is printed. *)
Theorem export_without_directory now st :
  temperature_data st <> [] ->
  output_dir st ∉ dirs st ->
  save_to_csv now st = (Raise OSError, st) /\
  save_to_json now st
    = (Raise (if is_file (output_dir st) (files st) then NotADirectoryError
              else FileNotFoundError), st).
Proof.
  intros H Hd. apply (bool_decide_false _) in Hd. split.
  - unfold save_to_csv, bind at 1, gets at 1.
    destruct (temperature_data st) as [|r data]; [congruence|].
    unfold bind at 1, gets at 1. unfold bind at 1, check_parent_directory.
    now rewrite Hd.
  - unfold save_to_json, bind at 1, gets at 1.
    destruct (temperature_data st) as [|r data]; [congruence|].
    unfold bind at 1, gets at 1. unfold bind at 1, open_w. rewrite Hd.
    now destruct (is_file (output_dir st) (files st)).
Qed.

Lemma without_directory_missing st :
  output_dir (without_directory st) ∉ dirs (without_directory st).
Proof.
  cbn [output_dir dirs without_directory]. apply not_elem_of_difference. right.
  now apply elem_of_singleton_2.
Qed.

Lemma export_without_directory_witness :
  save_to_csv sample_time (without_directory after_first_run)
    = (Raise OSError, without_directory after_first_run) /\
  save_to_json sample_time (without_directory after_first_run)
    = (Raise (if is_file (output_dir (without_directory after_first_run))
                   (files (without_directory after_first_run))
              then NotADirectoryError else FileNotFoundError),
       without_directory after_first_run).
Proof.
  apply (export_without_directory sample_time (without_directory after_first_run)).
  - vm_compute. discriminate.
  - apply without_directory_missing.
Defined.

(** X18: with the output directory in place, a record whose weather
    description is a string without a UTF-8 encoding makes both exports
    raise [UnicodeEncodeError]: each leaves a truncated file at its path
    and prints nothing, and nothing else changes. *)
Theorem export_of_an_unencodable_description now st r s :
  In r (temperature_data st) ->
  Current_Condition r = PStr s ->
  encodable s = false ->
  can_write (csv_path now st) st = true ->
  can_write (json_path now st) st = true ->
  save_to_csv now st = (Raise UnicodeEncodeError, put_file (csv_path now st) Truncated st) /\
  save_to_json now st = (Raise UnicodeEncodeError, put_file (json_path now st) Truncated st).
Proof.
  intros Hin Hc Hs Hwc Hwj.
  assert (Hne : temperature_data st <> []) by (intros E; rewrite E in Hin; contradiction).
  assert (Hr : encodable_record r = false).
  { unfold encodable_record. rewrite Hc. cbn [encodable_pyval]. rewrite Hs.
    now rewrite andb_false_r. }
  split.
  - apply save_to_csv_truncates; [exact Hne | exact Hwc|].
    destruct (file_encodable (to_csv (sorted_frame st))) eqn:E; [|reflexivity].
    destruct (to_csv_sorted st Hne) as (sorted & Hf & _ & Hp & _). rewrite Hf in E.
    cbn [file_encodable] in E. apply andb_true_iff in E as [_ E].
    rewrite forallb_forall in E.
    specialize (E (csv_line r) (in_map csv_line _ _ (Permutation_in _ Hp Hin))).
    unfold csv_line in E. rewrite Hc in E. cbn [forallb cell_encodable] in E.
    rewrite Hs in E. cbn [andb] in E. rewrite andb_false_r in E. discriminate.
  - apply save_to_json_truncates; [exact Hne | exact Hwj|].
    rewrite encodable_json_dumps, as_pyval_encodable.
    destruct (encodable_data (temperature_data st)) eqn:E; [|reflexivity].
    unfold encodable_data in E. rewrite forallb_forall in E.
    rewrite (E r Hin) in Hr. discriminate.
Qed.

Lemma export_of_an_unencodable_description_witness :
  save_to_csv sample_time after_surrogate_run
    = (Raise UnicodeEncodeError,
       put_file (csv_path sample_time after_surrogate_run) Truncated after_surrogate_run) /\
  save_to_json sample_time after_surrogate_run
    = (Raise UnicodeEncodeError,
       put_file (json_path sample_time after_surrogate_run) Truncated after_surrogate_run).
Proof.
  apply (export_of_an_unencodable_description sample_time after_surrogate_run
           {| City := "Pune"; Min_Temp := mkfloat 26 0; Max_Temp := mkfloat 34 0;
              Current_Condition := PStr (utf8_encode 55296); Humidity := 60;
              Wind_Speed := mkfloat 12 0; Fetched_At := "2026-03-07 09:05:00" |}
           (utf8_encode 55296));
    [vm_compute; tauto | reflexivity | vm_compute; reflexivity ..].
Defined.

(** X19: without the directory of the script, or with a regular file
    named [output] in it, the constructor raises and the script ends
    there: nothing is fetched, printed or written. *)
Theorem main_needs_the_output_directory w t1 t2 here ds fs :
  here ∉ ds \/ (((here ++ "/output") ∉ ds) /\ is_file (here ++ "/output") fs = true) ->
  exists e,
    (e = FileNotFoundError \/ e = NotADirectoryError \/ e = FileExistsError) /\
    main w t1 t2 here ds fs = (Raise e, (ds, fs, [])).
Proof.
  intros H. unfold main, TemperatureScraper, mkdir_exist_ok.
  destruct (bool_decide (here ∈ ds)) eqn:Eh.
  - apply bool_decide_eq_true in Eh. destruct H as [H|[Ho Hf]]; [contradiction|].
    rewrite (bool_decide_false _ Ho), Hf. exists FileExistsError. auto.
  - destruct (is_file here fs); eexists; split; [| reflexivity | | reflexivity]; auto.
Qed.

Lemma main_needs_the_output_directory_witness :
  exists e,
    (e = FileNotFoundError \/ e = NotADirectoryError \/ e = FileExistsError) /\
    main mumbai_only sample_time sample_time "/app" ∅ ∅ = (Raise e, (∅, ∅, [])).
Proof.
  apply (main_needs_the_output_directory mumbai_only sample_time sample_time "/app" ∅ ∅).
  left. apply not_elem_of_empty.
Defined.
